(** * The TLS chunk poller of the tracer: a shallow embedding of
    [tls_poller.go] and the properties of its stream demultiplexer,
    address canonicaliser, ingestion loop and bounded correlation cache. *)

From Stdlib Require Import ZArith.
From Stdlib.Strings Require Import Byte.
From stdpp Require Import gmap strings list fin_maps pretty.

Local Open Scope Z_scope.
Local Open Scope string_scope.

(** ** Machine integers *)

(** Go's [int] on amd64 is a 64-bit two's complement integer; arithmetic on
    it wraps around silently. *)
Definition int_bits : Z := 64.
Definition max_int : Z := 2 ^ (int_bits - 1) - 1.
Definition min_int : Z := - 2 ^ (int_bits - 1).
Definition wrap_int (z : Z) : Z :=
  (z - min_int) mod 2 ^ int_bits + min_int.
Definition in_int (z : Z) : Prop := min_int <= z <= max_int.

(** Go's [%] on integers truncates towards zero: it is [Z.rem]. *)
Definition go_rem (a b : Z) : Z := Z.rem a b.

(** [%d] and [strconv.FormatUint(_, 10)] on an unsigned value. *)
Definition FormatUint (n : N) : string := pretty n.

(** ** Data model *)

(** [net.IP] is a byte slice. *)
Definition IP : Type := list byte.

(** The [addressPair] that [getAddressPair] returns; its declaration is not
    part of [tls_poller.go], the fields are the four that [buildTlsKey] and
    [buildTcpId] read ([srcPort] and [dstPort] are [uint16]). *)
Record addressPair : Type := {
  srcIp : IP;
  srcPort : N;
  dstIp : IP;
  dstPort : N
}.

(** [TcpID]: the four fields [buildTcpId] fills, all text. *)
Record TcpID : Type := {
  SrcIP : string;
  DstIP : string;
  SrcPort : string;
  DstPort : string
}.

(** The inner [AddressInfo] struct of [tracerTlsChunk]. *)
Record tracerAddressInfo : Type := {
  Saddr : N;
  Daddr : N;
  Sport : N;
  Dport : N
}.

(** [tracerTlsChunk], as generated by bpf2go. *)
Record tracerTlsChunk : Type := {
  Pid : N;
  Tgid : N;
  Len : N;
  Start : N;
  Recorded : N;
  Fd : N;
  Flags : N;
  AddressInfo : tracerAddressInfo;
  Data : list byte
}.

(** The logical reverse of an address pair: source and destination swapped. *)
Definition reverse (a : addressPair) : addressPair :=
  {| srcIp := dstIp a; srcPort := dstPort a;
     dstIp := srcIp a; dstPort := srcPort a |}.

(** ** Address / key canonicaliser *)

Section Canonicalizer.

(** [net.IP.String] of the Go standard library. *)
Variable IP_String : IP -> string.

(** [fmt.Sprintf("%s:%d>%s:%d", ip1, port1, ip2, port2)]. *)
Definition sprintf_key (ip1 : IP) (port1 : N) (ip2 : IP) (port2 : N) : string :=
  IP_String ip1 ++ ":" ++ FormatUint port1 ++ ">" ++
  IP_String ip2 ++ ":" ++ FormatUint port2.

Definition buildTlsKey (address : addressPair) (isRequest : bool) : string :=
  if isRequest then
    sprintf_key (srcIp address) (srcPort address) (dstIp address) (dstPort address)
  else
    sprintf_key (dstIp address) (dstPort address) (srcIp address) (srcPort address).

Definition buildTcpId (address : addressPair) (isRequest : bool) : TcpID :=
  if isRequest then
    {| SrcIP := IP_String (srcIp address);
       DstIP := IP_String (dstIp address);
       SrcPort := FormatUint (srcPort address);
       DstPort := FormatUint (dstPort address) |}
  else
    {| SrcIP := IP_String (dstIp address);
       DstIP := IP_String (srcIp address);
       SrcPort := FormatUint (dstPort address);
       DstPort := FormatUint (srcPort address) |}.

End Canonicalizer.

(** Dotted-decimal rendering of a four-byte address, the form
    [net.IP.String] gives an IPv4 address; used to instantiate [IP_String]
    on concrete inputs. Other lengths are rendered as in Go for a nil
    slice. *)
Definition ipv4_String (ip : IP) : string :=
  match ip with
  | [a; b; c; d] =>
      FormatUint (Byte.to_N a) ++ "." ++ FormatUint (Byte.to_N b) ++ "." ++
      FormatUint (Byte.to_N c) ++ "." ++ FormatUint (Byte.to_N d)
  | _ => "<nil>"
  end.

(** ** Errors and results *)

(** A fallible Go call [(v, err)]: either the value or the error's text. *)
Inductive result (A : Type) : Type :=
  | Ok (a : A)
  | Err (msg : string).
Arguments Ok {A} a.
Arguments Err {A} msg.

(** An [error] returned by [perf.Reader.Read]: its text, and whether
    [errors.Is(err, perf.ErrClosed)] holds for it. *)
Record readError : Type := {
  Error : string;
  isErrClosed : bool
}.

(** ** Stream, reader, registry and the shared world *)

(** A [*tlsStream] is an index into the heap of allocated streams. *)
Abbreviation ptr := nat.

(** Modelled from the spec: the per-direction reassembly context
    ([tlsReader], declared outside [tls_poller.go]). Its constructor takes a
    ConnectionIdentity, the owning Stream and a role flag; its ingestion
    method accepts one chunk, recorded here in arrival order. *)
Record tlsReader : Type := {
  tcpID : TcpID;
  parent : ptr;
  isClient : bool;
  received : list tracerTlsChunk
}.

(** Modelled from the spec: the [tlsStream] (declared outside
    [tls_poller.go]): its key, its numeric identity and the client and
    server contexts, [None] standing for Go's nil until they are set. *)
Record tlsStream : Type := {
  st_key : string;
  st_id : Z;
  client : option tlsReader;
  server : option tlsReader
}.

(** Modelled from the spec: the shared stream-identity allocator
    ([TcpStreamMap], declared outside [tls_poller.go]): a table from
    identities to streams and the last identity handed out. *)
Record TcpStreamMap : Type := {
  table : gmap Z ptr;
  streamId : Z
}.

(** Modelled from the spec: the bounded correlation cache
    ([simplelru.LRU]): a fixed capacity and the entries ordered by recency,
    most recently used first. Keys are strings and values address pairs
    (the comment on [fdCache] in the source). *)
Record LRU : Type := {
  lru_size : Z;
  evictList : list (string * addressPair)
}.

(** [tlsPoller]. The fields [tls], [chunksReader] and [sorter] are handles
    that no function below reads; the [closeStreams] channel is the stream
    of teardown messages that [poll] receives. *)
Record tlsPoller : Type := {
  streams : gmap string ptr;
  procfs : string;
  fdCache : LRU;
  evictedCounter : Z
}.

(** What the poller does to its collaborators, in the order it happens. *)
Inductive event : Type :=
  | EvNewTlsStream (key : string) (s : ptr)
  | EvNextId (id : Z)
  | EvStore (id : Z) (s : ptr)
  | EvNewTlsReader (t : TcpID) (s : ptr) (isClient : bool)
  | EvNewChunk (s : ptr) (isClient : bool) (chunk : tracerTlsChunk)
  | EvLogInfo (msg : string)
  | EvLogError (msg : string).

(** Everything the demultiplexer task can touch: its poller, the shared
    stream table, the heap the stream pointers refer to, and the trace of
    events so far (oldest first). *)
Record world : Type := {
  poller : tlsPoller;
  streamsMap : TcpStreamMap;
  heap : list tlsStream;
  trace : list event
}.

(** ** A state monad with faults

    [None] is a run-time panic (a nil or dangling pointer dereference). *)
Definition M (A : Type) : Type := world -> option (A * world).

Definition ret {A : Type} (a : A) : M A := fun w => Some (a, w).
Definition bind {A B : Type} (m : M A) (f : A -> M B) : M B :=
  fun w => match m w with
           | Some (a, w') => f a w'
           | None => None
           end.
Definition fault {A : Type} : M A := fun _ => None.
Definition get : M world := fun w => Some (w, w).
Definition put (w : world) : M unit := fun _ => Some (tt, w).

Declare Scope M_scope.
Delimit Scope M_scope with M.
Notation "x <- c1 ;; c2" := (bind c1 (fun x => c2))
  (at level 100, c1 at next level, right associativity) : M_scope.
Notation "c1 ;; c2" := (bind c1 (fun _ => c2))
  (at level 100, right associativity) : M_scope.
Local Open Scope list_scope.
Local Open Scope M_scope.

Definition set_poller (p : tlsPoller) : M unit :=
  w <- get ;;
  put {| poller := p; streamsMap := streamsMap w; heap := heap w; trace := trace w |}.
Definition set_streamsMap (m : TcpStreamMap) : M unit :=
  w <- get ;;
  put {| poller := poller w; streamsMap := m; heap := heap w; trace := trace w |}.
Definition set_heap (h : list tlsStream) : M unit :=
  w <- get ;;
  put {| poller := poller w; streamsMap := streamsMap w; heap := h; trace := trace w |}.
Definition emit (e : event) : M unit :=
  w <- get ;;
  put {| poller := poller w; streamsMap := streamsMap w; heap := heap w;
         trace := trace w ++ [e] |}.

(** Reading and writing through a stream pointer. *)
Definition load (s : ptr) : M tlsStream :=
  w <- get ;;
  match heap w !! s with
  | Some st => ret st
  | None => fault
  end.
Definition store (s : ptr) (st : tlsStream) : M unit :=
  _ <- load s ;;
  w <- get ;;
  set_heap (<[s := st]> (heap w)).

(** [LogError(err)]. *)
Definition LogError (msg : string) : M unit := emit (EvLogError msg).
(** [log.Info().Msg(msg)]. *)
Definition LogInfo (msg : string) : M unit := emit (EvLogInfo msg).

(** ** The collaborators of [handleTlsChunk] *)

(** Modelled from the spec: [NewTlsStream(p, key)] allocates a new Stream
    for the key; identity and contexts are set by the caller. *)
Definition NewTlsStream (key : string) : M ptr :=
  w <- get ;;
  let s := length (heap w) in
  set_heap (heap w ++ [{| st_key := key; st_id := 0; client := None; server := None |}]) ;;
  emit (EvNewTlsStream key s) ;;
  ret s.

(** Modelled from the spec: [stream.setId] and [stream.getId]. *)
Definition setId (s : ptr) (id : Z) : M unit :=
  st <- load s ;;
  store s {| st_key := st_key st; st_id := id; client := client st; server := server st |}.
Definition getId (s : ptr) : M Z :=
  st <- load s ;;
  ret (st_id st).

(** Modelled from the spec: [nextId() -> integer], monotonically increasing
    and globally unique. *)
Definition NextId : M Z :=
  w <- get ;;
  let id := streamId (streamsMap w) + 1 in
  set_streamsMap {| table := table (streamsMap w); streamId := id |} ;;
  emit (EvNextId id) ;;
  ret id.

(** Modelled from the spec: [store(id, stream)] registers a Stream in the
    shared table. *)
Definition Store (id : Z) (s : ptr) : M unit :=
  w <- get ;;
  set_streamsMap {| table := <[id := s]> (table (streamsMap w));
                    streamId := streamId (streamsMap w) |} ;;
  emit (EvStore id s).

(** Modelled from the spec: [NewTlsReader(tcpID, stream, isClient)]. *)
Definition NewTlsReader (t : TcpID) (s : ptr) (isClient : bool) : M tlsReader :=
  emit (EvNewTlsReader t s isClient) ;;
  ret {| tcpID := t; parent := s; isClient := isClient; received := [] |}.

Definition set_client (s : ptr) (r : tlsReader) : M unit :=
  st <- load s ;;
  store s {| st_key := st_key st; st_id := st_id st; client := Some r; server := server st |}.
Definition set_server (s : ptr) (r : tlsReader) : M unit :=
  st <- load s ;;
  store s {| st_key := st_key st; st_id := st_id st; client := client st; server := Some r |}.

(** A [*tlsReader] held by a stream: the stream and the side; [None] is the
    nil reader. *)
Definition readerRef : Type := option (ptr * bool).

(** Modelled from the spec: [reader.newChunk(chunk)], the ingestion method
    of the reassembly context; the chunk is appended to what the context
    has received. *)
Definition newChunk (reader : readerRef) (chunk : tracerTlsChunk) : M unit :=
  match reader with
  | None => fault
  | Some (s, side) =>
      st <- load s ;;
      match (if side then client st else server st) with
      | None => fault
      | Some r =>
          let r' := {| tcpID := tcpID r; parent := parent r; isClient := isClient r;
                       received := received r ++ [chunk] |} in
          store s (if side
                   then {| st_key := st_key st; st_id := st_id st;
                           client := Some r'; server := server st |}
                   else {| st_key := st_key st; st_id := st_id st;
                           client := client st; server := Some r' |}) ;;
          emit (EvNewChunk s side chunk)
      end
  end.

(** ** The bounded correlation cache *)

Definition fdCachedItemAvgSize : Z := 40.
(** Constant integer division in Go truncates. *)
Definition fdCacheMaxItems : Z := Z.quot 500000 fdCachedItemAvgSize.

Definition set_evictedCounter (n : Z) : M unit :=
  w <- get ;;
  set_poller {| streams := streams (poller w); procfs := procfs (poller w);
                fdCache := fdCache (poller w); evictedCounter := n |}.
Definition set_fdCache (c : LRU) : M unit :=
  w <- get ;;
  set_poller {| streams := streams (poller w); procfs := procfs (poller w);
                fdCache := c; evictedCounter := evictedCounter (poller w) |}.
Definition set_streams (m : gmap string ptr) : M unit :=
  w <- get ;;
  set_poller {| streams := m; procfs := procfs (poller w);
                fdCache := fdCache (poller w);
                evictedCounter := evictedCounter (poller w) |}.

Definition fdCacheEvictCallback (key : string) (value : addressPair) : M unit :=
  w <- get ;;
  set_evictedCounter (wrap_int (evictedCounter (poller w) + 1)) ;;
  w <- get ;;
  if (go_rem (evictedCounter (poller w)) 1000000 =? 0)%Z then
    LogInfo ("Tls fdCache evicted " ++ pretty (evictedCounter (poller w)) ++ " items")
  else ret tt.

(** Modelled from the spec: construction of the cache, which fails with a
    configuration error if the capacity is non-positive. *)
Definition NewLRU (size : Z) : result LRU :=
  if (size <=? 0)%Z then Err "must provide a positive size"
  else Ok {| lru_size := size; evictList := [] |}.

Definition has_key (key : string) (e : string * addressPair) : bool :=
  bool_decide (e.1 = key).

(** Modelled from the spec: eviction of the least-recently-used entry (the
    last of the list); the eviction path runs the callback given at
    construction. *)
Definition LRU_removeOldest (onEvict : string -> addressPair -> M unit) : M unit :=
  w <- get ;;
  let c := fdCache (poller w) in
  match last (evictList c) with
  | None => ret tt
  | Some (k, v) =>
      set_fdCache {| lru_size := lru_size c; evictList := removelast (evictList c) |} ;;
      onEvict k v
  end.

(** Modelled from the spec: [insert(key, value)]. A key already present is
    refreshed and moved to the front; a new key is put at the front and, on
    overflow, the least-recently-used entry is evicted. The result tells
    whether an eviction happened. *)
Definition LRU_Add (onEvict : string -> addressPair -> M unit)
    (key : string) (value : addressPair) : M bool :=
  w <- get ;;
  let c := fdCache (poller w) in
  if existsb (has_key key) (evictList c) then
    set_fdCache {| lru_size := lru_size c;
                   evictList := (key, value) ::
                     List.filter (fun e => negb (has_key key e)) (evictList c) |} ;;
    ret false
  else
    set_fdCache {| lru_size := lru_size c;
                   evictList := (key, value) :: evictList c |} ;;
    w <- get ;;
    let evict := (lru_size c <? Z.of_nat (length (evictList (fdCache (poller w)))))%Z in
    (if evict then LRU_removeOldest onEvict else ret tt) ;;
    ret evict.

(** Modelled from the spec: [lookup(key) -> value or absent]; a hit moves the
    entry to the front. *)
Definition LRU_Get (key : string) : M (option addressPair) :=
  w <- get ;;
  let c := fdCache (poller w) in
  match find (has_key key) (evictList c) with
  | Some (k, v) =>
      set_fdCache {| lru_size := lru_size c;
                     evictList := (k, v) ::
                       List.filter (fun e => negb (has_key key e)) (evictList c) |} ;;
      ret (Some v)
  | None => ret None
  end.

(** The poller's cache is built with [poller.fdCacheEvictCallback]. *)
Definition fdCache_Add (key : string) (value : addressPair) : M bool :=
  LRU_Add fdCacheEvictCallback key value.
Definition fdCache_Get (key : string) : M (option addressPair) := LRU_Get key.

(** Successive insertions into the poller's cache; the result counts the
    insertions that reported an eviction. *)
Fixpoint fdCache_AddAll (kvs : list (string * addressPair)) : M nat :=
  match kvs with
  | [] => ret 0%nat
  | (key, value) :: rest =>
      evict <- fdCache_Add key value ;;
      n <- fdCache_AddAll rest ;;
      ret (if evict then S n else n)
  end.

(** [errors.Wrap(err, 0)] keeps the error's text. *)
Definition errors_Wrap (msg : string) : string := msg.

Definition newTlsPoller (procfs : string) : result tlsPoller :=
  match NewLRU fdCacheMaxItems with
  | Err err => Err (errors_Wrap err)
  | Ok fdCache =>
      Ok {| streams := ∅; procfs := procfs; fdCache := fdCache; evictedCounter := 0 |}
  end.

(** The eviction path run once for each of the entries, in order. *)
Fixpoint evict_each (kvs : list (string * addressPair)) : M unit :=
  match kvs with
  | [] => ret tt
  | (key, value) :: rest => fdCacheEvictCallback key value ;; evict_each rest
  end.

(** ** Binary record decoder *)

(** [binary.Size] of [tracerTlsChunk]: seven [uint32], the quad (two
    [uint32], two [uint16]) and 4096 payload bytes. *)
Definition chunkSize : nat := 4136.

Definition le_uint (bs : list byte) : N :=
  foldr (fun b acc => (Byte.to_N b + 256 * acc)%N) 0%N bs.
Definition field (raw : list byte) (off len : nat) : list byte :=
  take len (drop off raw).

(** [binary.Read(bytes.NewReader(raw), binary.LittleEndian, &chunk)]: fails
    when fewer than [chunkSize] bytes are left, else reads the fields in
    declaration order. *)
Definition binary_Read (raw : list byte) : result tracerTlsChunk :=
  if (length raw <? chunkSize)%nat then
    Err (match raw with [] => "EOF" | _ => "unexpected EOF" end)
  else
    Ok {| Pid := le_uint (field raw 0 4);
          Tgid := le_uint (field raw 4 4);
          Len := le_uint (field raw 8 4);
          Start := le_uint (field raw 12 4);
          Recorded := le_uint (field raw 16 4);
          Fd := le_uint (field raw 20 4);
          Flags := le_uint (field raw 24 4);
          AddressInfo :=
            {| Saddr := le_uint (field raw 28 4);
               Daddr := le_uint (field raw 32 4);
               Sport := le_uint (field raw 36 2);
               Dport := le_uint (field raw 38 2) |};
          Data := field raw 40 4096 |}.

(** ** Ingestion task *)

(** [perf.Record]: the raw sample and the lost-sample count. *)
Record perfRecord : Type := {
  RawSample : list byte;
  LostSamples : N
}.

(** One return of [p.chunksReader.Read()]. *)
Inductive readResult : Type :=
  | ReadOk (record : perfRecord)
  | ReadErr (err : readError).

(** What the ingestion task has done once it has consumed the reads it was
    given: the chunks pushed onto the handoff queue (oldest first), whether
    it closed the queue, whether it returned (otherwise it is blocked in
    [Read]), and its log (oldest first). *)
Record ingestion : Type := {
  sent : list tracerTlsChunk;
  chan_closed : bool;
  task_returned : bool;
  ilog : list event
}.

Definition logged (e : event) (r : ingestion) : ingestion :=
  {| sent := sent r; chan_closed := chan_closed r;
     task_returned := task_returned r; ilog := e :: ilog r |}.
Definition pushed (chunk : tracerTlsChunk) (r : ingestion) : ingestion :=
  {| sent := chunk :: sent r; chan_closed := chan_closed r;
     task_returned := task_returned r; ilog := ilog r |}.

(** The [for] loop of [pollChunksPerfBuffer], run on the successive results
    of [Read]. *)
Fixpoint readLoop (reads : list readResult) : ingestion :=
  match reads with
  | [] => {| sent := []; chan_closed := false; task_returned := false; ilog := [] |}
  | ReadErr err :: _ =>
      {| sent := []; chan_closed := true; task_returned := true;
         ilog := if isErrClosed err then []
                 else [EvLogError ("Error reading chunks from tls perf, aborting TLS! "
                                   ++ Error err)] |}
  | ReadOk record :: rest =>
      if negb (LostSamples record =? 0)%N then
        logged (EvLogInfo ("Buffer is full, dropped " ++ FormatUint (LostSamples record)
                           ++ " chunks"))
               (readLoop rest)
      else
        match binary_Read (RawSample record) with
        | Err err => logged (EvLogError ("Error parsing chunk " ++ err)) (readLoop rest)
        | Ok chunk => pushed chunk (readLoop rest)
        end
  end.

Definition pollChunksPerfBuffer (reads : list readResult) : ingestion :=
  logged (EvLogInfo "Start polling for tls events") (readLoop reads).

(** ** Vocabulary of the properties *)

(** The reader after its ingestion method has accepted a chunk. *)
Definition accept (chunk : tracerTlsChunk) (r : tlsReader) : tlsReader :=
  {| tcpID := tcpID r; parent := parent r; isClient := isClient r;
     received := received r ++ [chunk] |}.

(** The stream after the context of the given side has accepted a chunk. *)
Definition deliver (side : bool) (chunk : tracerTlsChunk) (st : tlsStream) : tlsStream :=
  if side
  then {| st_key := st_key st; st_id := st_id st;
          client := accept chunk <$> client st; server := server st |}
  else {| st_key := st_key st; st_id := st_id st;
          client := client st; server := accept chunk <$> server st |}.

(** Two states of one stream with the same key, identity and connection
    identities of both contexts. *)
Definition same_binding (st st' : tlsStream) : Prop :=
  st_key st' = st_key st /\ st_id st' = st_id st /\
  tcpID <$> client st' = tcpID <$> client st /\
  tcpID <$> server st' = tcpID <$> server st.

(** A registered stream is allocated, has both of its contexts, and carries
    an identity the allocator has handed out. *)
Definition stream_ready (w : world) (s : ptr) : Prop :=
  exists st, heap w !! s = Some st /\ is_Some (client st) /\ is_Some (server st)
             /\ (st_id st <= streamId (streamsMap w))%Z.

(** The invariant of the demultiplexer's registry. *)
Definition wf (w : world) : Prop :=
  forall k s, streams (poller w) !! k = Some s -> stream_ready w s.

(** The connection identities of the client and of the server context of
    the stream registered for the flow [k], if there is one. *)
Definition bound_identities (k : string) (w : world) : option (TcpID * TcpID) :=
  match streams (poller w) !! k with
  | Some s =>
      match heap w !! s with
      | Some st =>
          match client st, server st with
          | Some rc, Some rs => Some (tcpID rc, tcpID rs)
          | _, _ => None
          end
      | None => None
      end
  | None => None
  end.

(** The world with the entries of the cache replaced. *)
Definition with_cache (l : list (string * addressPair)) (w : world) : world :=
  {| poller := {| streams := streams (poller w); procfs := procfs (poller w);
                  fdCache := {| lru_size := lru_size (fdCache (poller w));
                                evictList := l |};
                  evictedCounter := evictedCounter (poller w) |};
     streamsMap := streamsMap w; heap := heap w; trace := trace w |}.

(** The world after one run of the eviction callback. *)
Definition evicted (w : world) : world :=
  let n := wrap_int (evictedCounter (poller w) + 1) in
  {| poller := {| streams := streams (poller w); procfs := procfs (poller w);
                  fdCache := fdCache (poller w); evictedCounter := n |};
     streamsMap := streamsMap w; heap := heap w;
     trace := if (go_rem n 1000000 =? 0)%Z
              then trace w ++ [EvLogInfo ("Tls fdCache evicted " ++ pretty n ++ " items")]
              else trace w |}.

(** The world after [delete(p.streams, key)]. *)
Definition without (key : string) (w : world) : world :=
  {| poller := {| streams := delete key (streams (poller w));
                  procfs := procfs (poller w); fdCache := fdCache (poller w);
                  evictedCounter := evictedCounter (poller w) |};
     streamsMap := streamsMap w; heap := heap w; trace := trace w |}.

Definition is_NewTlsStream (e : event) : bool :=
  match e with EvNewTlsStream _ _ => true | _ => false end.
Definition is_NewTlsStream_for (k : string) (e : event) : bool :=
  match e with EvNewTlsStream k' _ => bool_decide (k' = k) | _ => false end.
Definition is_NextId (e : event) : bool :=
  match e with EvNextId _ => true | _ => false end.
Definition is_LogError (e : event) : bool :=
  match e with EvLogError _ => true | _ => false end.
Definition is_LogInfo (e : event) : bool :=
  match e with EvLogInfo _ => true | _ => false end.

(** How many events of a trace satisfy a test. *)
Definition count (f : event -> bool) (tr : list event) : nat :=
  length (List.filter f tr).

(** ** Stream demultiplexer *)

(** What one iteration of the [select] in [poll] receives: a chunk from the
    handoff queue, the closure of that queue, or a key from
    [closeStreams]. *)
Inductive pollMsg : Type :=
  | MsgChunk (chunk : tracerTlsChunk)
  | MsgChunksClosed
  | MsgCloseStream (key : string).

(** What the handoff queue carries once the ingestion task has done [r]:
    the chunks it pushed, then the closure if it closed the queue. *)
Definition handoff (r : ingestion) : list pollMsg :=
  map MsgChunk (sent r) ++ (if chan_closed r then [MsgChunksClosed] else []).

(** The message comes from the handoff queue (not from [closeStreams]). *)
Definition from_handoff (m : pollMsg) : bool :=
  match m with MsgCloseStream _ => false | _ => true end.

Section Demultiplexer.

Variable IP_String : IP -> string.
(** [chunk.getAddressPair()] and [chunk.isRequest()], methods declared
    outside [tls_poller.go]. *)
Variable getAddressPair : tracerTlsChunk -> addressPair.
Variable isRequest : tracerTlsChunk -> bool.

(** Modelled from the spec: [chunk.getReader(stream)] picks the client
    context for request-side chunks and the server context otherwise. *)
Definition getReader (chunk : tracerTlsChunk) (s : ptr) : M readerRef :=
  st <- load s ;;
  match (if isRequest chunk then client st else server st) with
  | Some _ => ret (Some (s, isRequest chunk))
  | None => ret None
  end.

Definition handleTlsChunk (chunk : tracerTlsChunk) : M (option string) :=
  let address := getAddressPair chunk in
  let key := buildTlsKey IP_String address (isRequest chunk) in
  w <- get ;;
  stream <- match streams (poller w) !! key with
            | Some stream => ret stream
            | None =>
                stream <- NewTlsStream key ;;
                id <- NextId ;;
                setId stream id ;;
                id <- getId stream ;;
                Store id stream ;;
                w <- get ;;
                set_streams (<[key := stream]> (streams (poller w))) ;;
                c <- NewTlsReader (buildTcpId IP_String address true) stream true ;;
                set_client stream c ;;
                s <- NewTlsReader (buildTcpId IP_String address false) stream false ;;
                set_server stream s ;;
                ret stream
            end ;;
  reader <- getReader chunk stream ;;
  newChunk reader chunk ;;
  ret None.

(** The loop of [poll] on the messages its [select] receives, in the
    order it receives them; the result tells whether [poll] returned
    ([false]: it is waiting in [select]). *)
Fixpoint poll (msgs : list pollMsg) : M bool :=
  match msgs with
  | [] => ret false
  | MsgChunksClosed :: _ => ret true
  | MsgChunk chunk :: rest =>
      err <- handleTlsChunk chunk ;;
      match err with
      | Some err => LogError err
      | None => ret tt
      end ;;
      poll rest
  | MsgCloseStream key :: rest =>
      w <- get ;;
      set_streams (delete key (streams (poller w))) ;;
      poll rest
  end.

(** The FlowKey a chunk maps to. *)
Definition flowKey (chunk : tracerTlsChunk) : string :=
  buildTlsKey IP_String (getAddressPair chunk) (isRequest chunk).

(** The message is a chunk of the flow [k]. *)
Definition chunk_of (k : string) (m : pollMsg) : bool :=
  match m with
  | MsgChunk chunk => bool_decide (flowKey chunk = k)
  | _ => false
  end.

(** The message leaves the flow [k] registered and the loop running: it
    is a chunk, or a teardown of another flow. *)
Definition keeps (k : string) (m : pollMsg) : bool :=
  match m with
  | MsgChunk _ => true
  | MsgChunksClosed => false
  | MsgCloseStream k' => negb (bool_decide (k' = k))
  end.

(** The stream that the first chunk of a flow leaves on the heap of [w]:
    created with the next identity and both contexts, the chunk already
    delivered to the context of its direction. *)
Definition fresh_stream (chunk : tracerTlsChunk) (w : world) : tlsStream :=
  let address := getAddressPair chunk in
  let s := length (heap w) in
  deliver (isRequest chunk) chunk
    {| st_key := flowKey chunk;
       st_id := (streamId (streamsMap w) + 1)%Z;
       client := Some {| tcpID := buildTcpId IP_String address true; parent := s;
                         isClient := true; received := [] |};
       server := Some {| tcpID := buildTcpId IP_String address false; parent := s;
                         isClient := false; received := [] |} |}.

(** The events of the creation of a stream for the chunk, in order. *)
Definition creation_events (chunk : tracerTlsChunk) (w : world) : list event :=
  let address := getAddressPair chunk in
  let s := length (heap w) in
  let id := (streamId (streamsMap w) + 1)%Z in
  [EvNewTlsStream (flowKey chunk) s; EvNextId id; EvStore id s;
   EvNewTlsReader (buildTcpId IP_String address true) s true;
   EvNewTlsReader (buildTcpId IP_String address false) s false;
   EvNewChunk s (isRequest chunk) chunk].

(** Every dispatch of a chunk of the flow [k] in the trace went to the
    stream [s]. *)
Definition routed_to (k : string) (s : ptr) (tr : list event) : Prop :=
  forall s' side chunk,
    EvNewChunk s' side chunk ∈ tr -> flowKey chunk = k -> s' = s.

End Demultiplexer.

(** ** Concrete instances for running the model *)

(** The host-order value of a 16-bit field stored in network byte order. *)
Definition ntohs (p : N) : N := ((p mod 256) * 256 + p / 256)%N.

(** The four bytes of a 32-bit address field, in memory (network) order. *)
Definition intToIP (a : N) : IP :=
  match Byte.of_N (a mod 256), Byte.of_N ((a / 256) mod 256),
        Byte.of_N ((a / 65536) mod 256), Byte.of_N ((a / 16777216) mod 256) with
  | Some b0, Some b1, Some b2, Some b3 => [b0; b1; b2; b3]
  | _, _, _, _ => []
  end.

(** An instance of [getAddressPair] for concrete runs: the quad of the
    chunk, parsed from network byte order. The results below hold for every
    choice of the method. *)
Definition sample_getAddressPair (chunk : tracerTlsChunk) : addressPair :=
  {| srcIp := intToIP (Saddr (AddressInfo chunk));
     srcPort := ntohs (Sport (AddressInfo chunk));
     dstIp := intToIP (Daddr (AddressInfo chunk));
     dstPort := ntohs (Dport (AddressInfo chunk)) |}.

(** An instance of [isRequest] for concrete runs: the lowest bit of the
    flags. The results below hold for every choice of the method. *)
Definition sample_isRequest (chunk : tracerTlsChunk) : bool :=
  N.testbit (Flags chunk) 0.

(** A chunk with the given flags and quad and no payload. *)
Definition mkChunk (flags saddr daddr sport dport : N) : tracerTlsChunk :=
  {| Pid := 1; Tgid := 1; Len := 0; Start := 0; Recorded := 0; Fd := 3;
     Flags := flags;
     AddressInfo := {| Saddr := saddr; Daddr := daddr; Sport := sport; Dport := dport |};
     Data := [] |}.

(** 10.0.0.1:5000 > 10.0.0.2:443, tagged request and tagged response. *)
Definition chunkA : tracerTlsChunk := mkChunk 1 16777226 33554442 34835 47873.
Definition chunkB : tracerTlsChunk := mkChunk 0 16777226 33554442 34835 47873.

(** 10.0.0.2:443 > 10.0.0.1:5000, tagged response: the answer to [chunkA]
    as it is observed, with the server as its source. *)
Definition chunkR : tracerTlsChunk := mkChunk 0 33554442 16777226 47873 34835.

(** The world in which [poll] starts: a poller and the shared stream
    table, nothing allocated and nothing traced yet. *)
Definition initial_world (p : tlsPoller) (m : TcpStreamMap) : world :=
  {| poller := p; streamsMap := m; heap := []; trace := [] |}.

Definition empty_poller : tlsPoller :=
  {| streams := ∅; procfs := "/proc";
     fdCache := {| lru_size := fdCacheMaxItems; evictList := [] |};
     evictedCounter := 0 |}.

Definition world0 : world :=
  initial_world empty_poller {| table := ∅; streamId := 0 |}.

(** The world after the first chunk of the scenario has been handled. *)
Definition world1 : world :=
  match handleTlsChunk ipv4_String sample_getAddressPair sample_isRequest chunkA world0 with
  | Some (_, w) => w
  | None => world0
  end.

Definition keyA : string := "10.0.0.1:5000>10.0.0.2:443".
Definition keyB : string := "10.0.0.2:443>10.0.0.1:5000".

(** The two connection identities of the scenario. *)
Definition idAB : TcpID :=
  {| SrcIP := "10.0.0.1"; DstIP := "10.0.0.2"; SrcPort := "5000"; DstPort := "443" |}.
Definition idBA : TcpID :=
  {| SrcIP := "10.0.0.2"; DstIP := "10.0.0.1"; SrcPort := "443"; DstPort := "5000" |}.

(** Chunks of the two keys and a teardown of the second. *)
Definition msgsA : list pollMsg :=
  [MsgChunk chunkA; MsgChunk chunkB; MsgCloseStream keyB; MsgChunk chunkA;
   MsgChunk chunkB; MsgChunk chunkA].

(** The wire form of [chunkA] with an all-zero payload, and its decoding. *)
Definition rawA : list byte :=
  [x01; x00; x00; x00;  x01; x00; x00; x00;  x00; x00; x00; x00;
   x00; x00; x00; x00;  x00; x00; x00; x00;  x03; x00; x00; x00;
   x01; x00; x00; x00;  x0a; x00; x00; x01;  x0a; x00; x00; x02;
   x13; x88;  x01; xbb] ++ repeat x00 4096.
Definition decodedA : tracerTlsChunk :=
  {| Pid := 1; Tgid := 1; Len := 0; Start := 0; Recorded := 0; Fd := 3; Flags := 1;
     AddressInfo := {| Saddr := 16777226; Daddr := 33554442;
                       Sport := 34835; Dport := 47873 |};
     Data := repeat x00 4096 |}.

Definition recordA : perfRecord := {| RawSample := rawA; LostSamples := 0 |}.
Definition recordLost : perfRecord := {| RawSample := []; LostSamples := 7 |}.
Definition errOther : readError := {| Error := "bad file descriptor"; isErrClosed := false |}.

(** A world whose poller has seen [n] evictions. *)
Definition world_evicted (n : Z) : world :=
  initial_world {| streams := ∅; procfs := "/proc";
                   fdCache := {| lru_size := fdCacheMaxItems; evictList := [] |};
                   evictedCounter := n |}
                {| table := ∅; streamId := 0 |}.

(** A world whose cache holds at most two entries. *)
Definition world_small : world :=
  initial_world {| streams := ∅; procfs := "/proc";
                   fdCache := {| lru_size := 2; evictList := [] |};
                   evictedCounter := 0 |}
                {| table := ∅; streamId := 0 |}.
Definition pairA : addressPair := sample_getAddressPair chunkA.
Definition three_entries : list (string * addressPair) :=
  [("fd3", pairA); ("fd4", reverse pairA); ("fd5", pairA)].

(** ** Vocabulary of the further properties *)

(** *** The wire form of a record *)

(** The byte with the given value (a value above 255 has no byte). *)
Definition byte_of (n : N) : byte := default x00 (Byte.of_N n).

(** The [n] low bytes of a value, least significant first. *)
Fixpoint le_bytes (n : nat) (v : N) : list byte :=
  match n with
  | O => []
  | S n' => byte_of (v mod 256) :: le_bytes n' (v / 256)
  end.

(** The bytes of a chunk in the layout [binary.Read] reads: the fields of
    [tracerTlsChunk] in declaration order, integers little endian. *)
Definition wire (c : tracerTlsChunk) : list byte :=
  le_bytes 4 (Pid c) ++ le_bytes 4 (Tgid c) ++ le_bytes 4 (Len c) ++
  le_bytes 4 (Start c) ++ le_bytes 4 (Recorded c) ++ le_bytes 4 (Fd c) ++
  le_bytes 4 (Flags c) ++
  le_bytes 4 (Saddr (AddressInfo c)) ++ le_bytes 4 (Daddr (AddressInfo c)) ++
  le_bytes 2 (Sport (AddressInfo c)) ++ le_bytes 2 (Dport (AddressInfo c)) ++
  Data c.

Definition uint32_max : N := 4294967295.
Definition uint16_max : N := 65535.

(** Every field of the chunk fits its Go type: [uint32], [uint16] and
    [[4096]uint8]. *)
Definition chunk_ok (c : tracerTlsChunk) : Prop :=
  (Pid c <= uint32_max /\ Tgid c <= uint32_max /\ Len c <= uint32_max /\
   Start c <= uint32_max /\ Recorded c <= uint32_max /\ Fd c <= uint32_max /\
   Flags c <= uint32_max /\
   Saddr (AddressInfo c) <= uint32_max /\ Daddr (AddressInfo c) <= uint32_max /\
   Sport (AddressInfo c) <= uint16_max /\ Dport (AddressInfo c) <= uint16_max)%N /\
  length (Data c) = 4096%nat.

(** *** The reads of the ingestion task *)

(** The records the loop gets to: those read before the first failed
    read. *)
Fixpoint before_error (reads : list readResult) : list perfRecord :=
  match reads with
  | ReadOk record :: rest => record :: before_error rest
  | _ => []
  end.

(** The first failed read, if there is one. *)
Fixpoint first_error (reads : list readResult) : option readError :=
  match reads with
  | ReadOk _ :: rest => first_error rest
  | ReadErr err :: _ => Some err
  | [] => None
  end.

(** The chunk a record puts on the handoff queue: none for a record that
    reports lost samples or does not decode. *)
Definition pushed_chunk (record : perfRecord) : option tracerTlsChunk :=
  if (LostSamples record =? 0)%N then
    match binary_Read (RawSample record) with
    | Ok chunk => Some chunk
    | Err _ => None
    end
  else None.

(** The line a record puts in the log: none for a record that is pushed. *)
Definition record_line (record : perfRecord) : option event :=
  if (LostSamples record =? 0)%N then
    match binary_Read (RawSample record) with
    | Ok _ => None
    | Err err => Some (EvLogError ("Error parsing chunk " ++ err))
    end
  else Some (EvLogInfo ("Buffer is full, dropped " ++ FormatUint (LostSamples record)
                        ++ " chunks")).

(** The line a failed read puts in the log: none for the closed reader. *)
Definition error_line (err : readError) : list event :=
  if isErrClosed err then []
  else [EvLogError ("Error reading chunks from tls perf, aborting TLS! " ++ Error err)].

(** *** The messages and the calls of the demultiplexer *)

(** The chunks the loop handles: those it receives before the closure of
    the handoff queue. *)
Fixpoint handled (msgs : list pollMsg) : list tracerTlsChunk :=
  match msgs with
  | MsgChunk chunk :: rest => chunk :: handled rest
  | MsgCloseStream _ :: rest => handled rest
  | MsgChunksClosed :: _ => []
  | [] => []
  end.

(** A call of [newChunk]: the stream of the reader, its side, the chunk. *)
Definition dispatch (e : event) : option (ptr * bool * tracerTlsChunk) :=
  match e with
  | EvNewChunk s side chunk => Some (s, side, chunk)
  | _ => None
  end.

(** The calls of [newChunk] of a trace, in order. *)
Definition dispatched (tr : list event) : list (ptr * bool * tracerTlsChunk) :=
  omap dispatch tr.

(** Every registered stream carries the key it is registered under. *)
Definition keyed (w : world) : Prop :=
  forall k s, streams (poller w) !! k = Some s ->
  exists st, heap w !! s = Some st /\ st_key st = k.

(** Every identity of the shared table was handed out by the allocator. *)
Definition table_allocated (w : world) : Prop :=
  forall id s, table (streamsMap w) !! id = Some s -> (id <= streamId (streamsMap w))%Z.

Section DemultiplexerVocabulary.

Variable IP_String : IP -> string.
Variable getAddressPair : tracerTlsChunk -> addressPair.
Variable isRequest : tracerTlsChunk -> bool.

(** The chunks of the flow [k] that the loop handles, in arrival order. *)
Definition flow_chunks (k : string) (msgs : list pollMsg) : list tracerTlsChunk :=
  List.filter (fun chunk => bool_decide (flowKey IP_String getAddressPair isRequest chunk = k))
              (handled msgs).

(** The request-side and the response-side chunks among some chunks. *)
Definition requests (chunks : list tracerTlsChunk) : list tracerTlsChunk :=
  List.filter isRequest chunks.
Definition responses (chunks : list tracerTlsChunk) : list tracerTlsChunk :=
  List.filter (fun chunk => negb (isRequest chunk)) chunks.

(** Whether the flow [k] is registered after the messages, given whether
    it was before: a chunk of the flow registers it, a teardown of its key
    unregisters it, and nothing is handled after the closure. *)
Fixpoint registered_after (k : string) (msgs : list pollMsg) (before : bool) : bool :=
  match msgs with
  | [] => before
  | MsgChunk chunk :: rest =>
      registered_after k rest
        (before || bool_decide (flowKey IP_String getAddressPair isRequest chunk = k))
  | MsgCloseStream k' :: rest =>
      registered_after k rest (before && negb (bool_decide (k' = k)))
  | MsgChunksClosed :: _ => before
  end.

End DemultiplexerVocabulary.

(** *** The text of a key *)

(** The character occurs in the text. *)
Fixpoint has_char (c : Ascii.ascii) (s : string) : bool :=
  match s with
  | EmptyString => false
  | String a s' => bool_decide (a = c) || has_char c s'
  end.

(** The characters [>] and [:] that separate the parts of a key. *)
Definition gt_char : Ascii.ascii := Ascii.ascii_of_nat 62.
Definition colon_char : Ascii.ascii := Ascii.ascii_of_nat 58.

(** The character is a decimal digit. *)
Definition is_digit (a : Ascii.ascii) : bool :=
  (48 <=? Ascii.nat_of_ascii a)%nat && (Ascii.nat_of_ascii a <=? 57)%nat.

(** The text consists of decimal digits. *)
Fixpoint all_digits (s : string) : bool :=
  match s with
  | EmptyString => true
  | String a s' => is_digit a && all_digits s'
  end.

(** The address pair as a key in the given direction prints it: as it is
    for a request, reversed for a response. *)
Definition oriented (a : addressPair) (isRequest : bool) : addressPair :=
  if isRequest then a else reverse a.

(** ** The generated objects and their closing *)

Section Closers.

(** A loaded program or map ([*ebpf.Program], [*ebpf.Map]), and the state
    of the kernel objects that closing one acts on. *)
Variable Handle : Type.
Variable Kernel : Type.

(** [closer.Close()] of a handle: the error it returns, if any, and the
    state it leaves. *)
Variable closeHandle : Handle -> Kernel -> option string * Kernel.

(** [tracerMaps]. *)
Record tracerMaps : Type := {
  AcceptSyscallContext : Handle;
  ChunksBuffer : Handle;
  ConnectSyscallInfo : Handle;
  ConnectionContext : Handle;
  GoKernelReadContext : Handle;
  GoKernelWriteContext : Handle;
  GoReadContext : Handle;
  GoUserKernelReadContext : Handle;
  GoUserKernelWriteContext : Handle;
  GoWriteContext : Handle;
  GoidOffsetsMap : Handle;
  Heap : Handle;
  LogBuffer : Handle;
  MysqlCommandHeap : Handle;
  MysqlQueries : Handle;
  OpensslReadContext : Handle;
  OpensslWriteContext : Handle;
  PidsMap : Handle
}.

(** [tracerPrograms]. *)
Record tracerPrograms : Type := {
  GoCryptoTlsAbi0Read : Handle;
  GoCryptoTlsAbi0ReadEx : Handle;
  GoCryptoTlsAbi0Write : Handle;
  GoCryptoTlsAbi0WriteEx : Handle;
  GoCryptoTlsAbiInternalRead : Handle;
  GoCryptoTlsAbiInternalReadEx : Handle;
  GoCryptoTlsAbiInternalWrite : Handle;
  GoCryptoTlsAbiInternalWriteEx : Handle;
  ServerCommandProbe : Handle;
  SslRead : Handle;
  SslReadEx : Handle;
  SslRetRead : Handle;
  SslRetReadEx : Handle;
  SslRetWrite : Handle;
  SslRetWriteEx : Handle;
  SslWrite : Handle;
  SslWriteEx : Handle;
  SysEnterAccept4 : Handle;
  SysEnterConnect : Handle;
  SysEnterRead : Handle;
  SysEnterWrite : Handle;
  SysExitAccept4 : Handle;
  SysExitConnect : Handle;
  SysExitRead : Handle;
  SysExitWrite : Handle;
  TcpRecvmsg : Handle;
  TcpSendmsg : Handle
}.

(** [tracerObjects]: the two embedded structs. *)
Record tracerObjects : Type := {
  objPrograms : tracerPrograms;
  objMaps : tracerMaps
}.

(** [_TracerClose], for closers whose [Close] is [close]. *)
Fixpoint _TracerClose {C : Type} (close : C -> Kernel -> option string * Kernel)
    (closers : list C) (st : Kernel) : option string * Kernel :=
  match closers with
  | [] => (None, st)
  | closer :: rest =>
      match close closer st with
      | (Some err, st') => (Some err, st')
      | (None, st') => _TracerClose close rest st'
      end
  end.

(** The arguments of [_TracerClose] in [tracerMaps.Close]. *)
Definition map_closers (m : tracerMaps) : list Handle :=
  [AcceptSyscallContext m; ChunksBuffer m; ConnectSyscallInfo m; ConnectionContext m;
   GoKernelReadContext m; GoKernelWriteContext m; GoReadContext m;
   GoUserKernelReadContext m; GoUserKernelWriteContext m; GoWriteContext m;
   GoidOffsetsMap m; Heap m; LogBuffer m; MysqlCommandHeap m; MysqlQueries m;
   OpensslReadContext m; OpensslWriteContext m; PidsMap m].

(** The arguments of [_TracerClose] in [tracerPrograms.Close]. *)
Definition program_closers (p : tracerPrograms) : list Handle :=
  [GoCryptoTlsAbi0Read p; GoCryptoTlsAbi0ReadEx p; GoCryptoTlsAbi0Write p;
   GoCryptoTlsAbi0WriteEx p; GoCryptoTlsAbiInternalRead p;
   GoCryptoTlsAbiInternalReadEx p; GoCryptoTlsAbiInternalWrite p;
   GoCryptoTlsAbiInternalWriteEx p; ServerCommandProbe p; SslRead p; SslReadEx p;
   SslRetRead p; SslRetReadEx p; SslRetWrite p; SslRetWriteEx p; SslWrite p;
   SslWriteEx p; SysEnterAccept4 p; SysEnterConnect p; SysEnterRead p;
   SysEnterWrite p; SysExitAccept4 p; SysExitConnect p; SysExitRead p;
   SysExitWrite p; TcpRecvmsg p; TcpSendmsg p].

Definition tracerMaps_Close (m : tracerMaps) : Kernel -> option string * Kernel :=
  _TracerClose closeHandle (map_closers m).

Definition tracerPrograms_Close (p : tracerPrograms) : Kernel -> option string * Kernel :=
  _TracerClose closeHandle (program_closers p).

(** The two closers of [tracerObjects.Close]: [&o.tracerPrograms] and
    [&o.tracerMaps], each closed by its own [Close]. *)
Definition close_part (c : tracerPrograms + tracerMaps) : Kernel -> option string * Kernel :=
  match c with
  | inl p => tracerPrograms_Close p
  | inr m => tracerMaps_Close m
  end.

Definition tracerObjects_Close (o : tracerObjects) : Kernel -> option string * Kernel :=
  _TracerClose close_part [inl (objPrograms o); inr (objMaps o)].

End Closers.

(** *** Streams and the shared table *)

(** Every stream allocated at or after the cell [n] is in the shared table
    under its own identity, which the allocator has handed out. *)
Definition stored_from (n : nat) (w : world) : Prop :=
  forall s st, (n <= s)%nat -> heap w !! s = Some st ->
  table (streamsMap w) !! st_id st = Some s /\
  (st_id st <= streamId (streamsMap w))%Z.

(** *** Concrete inputs of the further properties *)

(** A record cut short: the first 100 bytes of the wire form of [chunkA]. *)
Definition recordShort : perfRecord := {| RawSample := take 100 rawA; LostSamples := 0 |}.

(** Good, lossy and short records, a failing read, and a read after it. *)
Definition readsA : list readResult :=
  [ReadOk recordA; ReadOk recordLost; ReadOk recordShort; ReadErr errOther; ReadOk recordA].

(** What [poll] may receive when the ingestion task ran on [readsA]. *)
Definition msgsHandoff : list pollMsg :=
  [MsgCloseStream keyB; MsgChunk decodedA; MsgChunksClosed; MsgCloseStream keyA].

(** * Properties *)

(** ** The monad and the heap *)

Lemma bind_Some {A B} (m : M A) (f : A -> M B) w a w' :
  m w = Some (a, w') -> bind m f w = f a w'.
Proof. intros H. unfold bind. now rewrite H. Qed.

Lemma lookup_snoc {A} (l : list A) x : (l ++ [x]) !! length l = Some x.
Proof. apply list_lookup_middle. reflexivity. Qed.

Lemma insert_snoc {A} (l : list A) x y : <[length l := y]> (l ++ [x]) = l ++ [y].
Proof. rewrite insert_app_r_alt by lia. now rewrite Nat.sub_diag. Qed.

(** Projections of records that the symbolic runs reduce. *)
Ltac proj_simpl :=
  cbn [st_key st_id client server tcpID parent isClient received table streamId
       heap poller streamsMap trace streams procfs fdCache evictedCounter
       lru_size evictList fmap option_fmap option_map accept].

(** Unfold the primitives of the monad in a run on an explicit world. *)
Ltac run_prims :=
  cbv [bind get put ret fault NewTlsStream set_heap emit NextId set_streamsMap
       setId getId load store Store set_streams set_poller set_fdCache
       set_evictedCounter NewTlsReader set_client set_server newChunk
       LogError LogInfo heap poller streamsMap trace].

(** ** Counting events *)

Lemma count_app f (a b : list event) : count f (a ++ b) = (count f a + count f b)%nat.
Proof. unfold count. now rewrite List.filter_app, length_app. Qed.

Lemma count_ext f g (tr : list event) :
  (forall e, e ∈ tr -> f e = g e) -> count f tr = count g tr.
Proof.
  unfold count. induction tr as [|e tr IH]; intros H; [reflexivity|].
  cbn [List.filter]. rewrite (H e) by (left).
  assert (IH' : length (List.filter f tr) = length (List.filter g tr)).
  { apply IH. intros e' He'. apply H. now right. }
  destruct (g e); cbn [length]; now rewrite IH'.
Qed.

(** ** The address / key canonicaliser *)

Section CanonicalizerProperties.

Variable IP_String : IP -> string.

Lemma reverse_involutive (a : addressPair) : reverse (reverse a) = a.
Proof. now destruct a. Qed.

(** C2. The FlowKey of an address pair in request direction is the
    FlowKey of the reversed pair in response direction, and the other way
    round. *)
Theorem flow_key_direction_agnostic (a : addressPair) :
  buildTlsKey IP_String a true = buildTlsKey IP_String (reverse a) false /\
  buildTlsKey IP_String a false = buildTlsKey IP_String (reverse a) true.
Proof. split; reflexivity. Qed.

(** A request chunk and a response chunk whose address pairs are each
    other's reverse map to one key. *)
Corollary exchange_collides (getAddressPair : tracerTlsChunk -> addressPair)
    (isRequest : tracerTlsChunk -> bool) (req resp : tracerTlsChunk) :
  isRequest req = true -> isRequest resp = false ->
  getAddressPair resp = reverse (getAddressPair req) ->
  flowKey IP_String getAddressPair isRequest req =
  flowKey IP_String getAddressPair isRequest resp.
Proof.
  intros Hreq Hresp Hrev. unfold flowKey. rewrite Hreq, Hresp, Hrev.
  reflexivity.
Qed.

End CanonicalizerProperties.

(** ** The bounded correlation cache *)

Lemma wrap_int_id z : in_int z -> wrap_int z = z.
Proof.
  unfold in_int, wrap_int, min_int, max_int, int_bits. intros H.
  change (2 ^ (64 - 1))%Z with 9223372036854775808%Z in *.
  change (2 ^ 64)%Z with 18446744073709551616%Z.
  rewrite Z.mod_small; lia.
Qed.

Lemma go_rem_zero a b : b <> 0%Z -> go_rem a b = 0%Z <-> (a mod b = 0)%Z.
Proof.
  intros Hb. unfold go_rem. rewrite Z.rem_divide, Z.mod_divide by assumption. tauto.
Qed.

Lemma fdCacheEvictCallback_eq key value w :
  fdCacheEvictCallback key value w = Some (tt, evicted w).
Proof.
  destruct w as [[st pf c ec] m h t]. unfold fdCacheEvictCallback, evicted.
  run_prims. proj_simpl. cbv zeta.
  now destruct (go_rem (wrap_int (ec + 1)) 1000000 =? 0)%Z.
Qed.

(** C7. One run of the eviction callback adds exactly one to the counter
    (below the largest [int], where the addition does not wrap) and touches
    nothing else of the poller; it logs the line with the new count if and
    only if the new count is a multiple of 1,000,000: at the 1,000,000th
    eviction, and at none of the evictions 1 to 999,999. *)
Theorem eviction_counter_and_log (key : string) (value : addressPair) (w : world) :
  (min_int <= evictedCounter (poller w) < max_int)%Z ->
  let n := (evictedCounter (poller w) + 1)%Z in
  exists w',
    fdCacheEvictCallback key value w = Some (tt, w') /\
    evictedCounter (poller w') = n /\
    streams (poller w') = streams (poller w) /\
    fdCache (poller w') = fdCache (poller w) /\
    heap w' = heap w /\ streamsMap w' = streamsMap w /\
    ((n mod 1000000 = 0)%Z ->
     trace w' = trace w ++ [EvLogInfo ("Tls fdCache evicted " ++ pretty n ++ " items")]) /\
    ((n mod 1000000 <> 0)%Z -> trace w' = trace w) /\
    (n = 1000000%Z ->
     trace w' = trace w ++ [EvLogInfo "Tls fdCache evicted 1000000 items"]) /\
    ((1 <= n <= 999999)%Z -> trace w' = trace w).
Proof.
  intros Hrange n. exists (evicted w).
  split; [apply fdCacheEvictCallback_eq|].
  assert (Hw : wrap_int (evictedCounter (poller w) + 1) = n).
  { apply wrap_int_id. unfold in_int. subst n. lia. }
  unfold evicted. cbv zeta. rewrite Hw. cbn [poller evictedCounter streams fdCache heap streamsMap trace].
  do 5 (split; [reflexivity|]).
  assert (Hyes : (n mod 1000000 = 0)%Z ->
                 (if (go_rem n 1000000 =? 0)%Z
                  then trace w ++ [EvLogInfo ("Tls fdCache evicted " ++ pretty n ++ " items")]
                  else trace w) =
                 trace w ++ [EvLogInfo ("Tls fdCache evicted " ++ pretty n ++ " items")]).
  { intros H. apply (go_rem_zero n 1000000) in H; [|lia].
    apply Z.eqb_eq in H. now rewrite H. }
  assert (Hno : (n mod 1000000 <> 0)%Z ->
                (if (go_rem n 1000000 =? 0)%Z
                 then trace w ++ [EvLogInfo ("Tls fdCache evicted " ++ pretty n ++ " items")]
                 else trace w) = trace w).
  { intros H. destruct (Z.eqb_spec (go_rem n 1000000) 0) as [H0|H0]; [|reflexivity].
    apply go_rem_zero in H0; [contradiction|lia]. }
  split; [exact Hyes|]. split; [exact Hno|]. split.
  - intros Hn. rewrite Hyes by (rewrite Hn; reflexivity). now rewrite Hn.
  - intros Hn. apply Hno. rewrite Z.mod_small; lia.
Qed.

Lemma div_succ (c : Z) :
  ((c + 1) / 1000000 = c / 1000000 + (if ((c + 1) mod 1000000 =? 0) then 1 else 0))%Z.
Proof.
  pose proof (Z.div_mod c 1000000 ltac:(lia)) as Hc.
  pose proof (Z.mod_pos_bound c 1000000 ltac:(lia)) as Hcb.
  pose proof (Z.div_mod (c + 1) 1000000 ltac:(lia)) as Hs.
  pose proof (Z.mod_pos_bound (c + 1) 1000000 ltac:(lia)) as Hsb.
  destruct (Z.eqb_spec ((c + 1) mod 1000000) 0) as [H0|H0]; lia.
Qed.

(** After any number of evictions that does not overflow the counter, the
    counter has grown by that number and one line was logged for every
    multiple of 1,000,000 it passed. *)
Lemma evict_each_counts (kvs : list (string * addressPair)) :
  forall w,
  (min_int <= evictedCounter (poller w))%Z ->
  (evictedCounter (poller w) + Z.of_nat (length kvs) <= max_int)%Z ->
  exists w',
    evict_each kvs w = Some (tt, w') /\
    evictedCounter (poller w') = (evictedCounter (poller w) + Z.of_nat (length kvs))%Z /\
    Z.of_nat (count is_LogInfo (trace w')) =
      (Z.of_nat (count is_LogInfo (trace w)) +
       (evictedCounter (poller w') / 1000000 - evictedCounter (poller w) / 1000000))%Z.
Proof.
  induction kvs as [|[key value] rest IH]; intros w Hlo Hhi.
  - exists w. cbn [length evict_each ret]. repeat split; lia.
  - cbn [length] in Hhi.
    assert (Hw : wrap_int (evictedCounter (poller w) + 1) = (evictedCounter (poller w) + 1)%Z).
    { apply wrap_int_id. unfold in_int. lia. }
    destruct (IH (evicted w)) as (w' & Hrun & Hn & Hlog).
    + cbn [evicted poller evictedCounter]. rewrite Hw. lia.
    + cbn [evicted poller evictedCounter]. rewrite Hw. lia.
    + exists w'. cbn [evict_each].
      rewrite (bind_Some _ _ _ _ _ (fdCacheEvictCallback_eq key value w)).
      split; [assumption|].
      cbn [evicted poller evictedCounter trace] in Hn, Hlog. rewrite Hw in Hn, Hlog.
      split; [cbn [length]; lia|].
      rewrite Hlog, (div_succ (evictedCounter (poller w))).
      pose proof (go_rem_zero (evictedCounter (poller w) + 1) 1000000 ltac:(lia)) as Hrem.
      destruct (Z.eqb_spec ((evictedCounter (poller w) + 1) mod 1000000) 0) as [H0|H0];
        destruct (Z.eqb_spec (go_rem (evictedCounter (poller w) + 1) 1000000) 0) as [H1|H1];
        try tauto.
      * rewrite count_app. cbn. lia.
      * lia.
Qed.

(** *** Insertion *)

Lemma fdCache_Add_present key value w :
  existsb (has_key key) (evictList (fdCache (poller w))) = true ->
  fdCache_Add key value w =
    Some (false,
          with_cache ((key, value) ::
                      List.filter (fun e => negb (has_key key e))
                                  (evictList (fdCache (poller w)))) w).
Proof.
  destruct w as [[st pf [sz l] ec] m h t]. cbn [poller fdCache evictList]. intros H.
  unfold fdCache_Add, LRU_Add, with_cache. run_prims. proj_simpl. now rewrite H.
Qed.

Lemma fdCache_Add_fits key value w :
  existsb (has_key key) (evictList (fdCache (poller w))) = false ->
  (Z.of_nat (S (length (evictList (fdCache (poller w))))) <= lru_size (fdCache (poller w)))%Z ->
  fdCache_Add key value w =
    Some (false, with_cache ((key, value) :: evictList (fdCache (poller w))) w).
Proof.
  destruct w as [[st pf [sz l] ec] m h t]. cbn [poller fdCache evictList lru_size].
  intros H Hfit.
  unfold fdCache_Add, LRU_Add, with_cache. run_prims. proj_simpl. rewrite H.
  cbn [length]. destruct (Z.ltb_spec sz (Z.of_nat (S (length l)))); [lia|reflexivity].
Qed.

Lemma fdCache_Add_overflow key value w k0 v0 :
  existsb (has_key key) (evictList (fdCache (poller w))) = false ->
  (lru_size (fdCache (poller w)) < Z.of_nat (S (length (evictList (fdCache (poller w))))))%Z ->
  last ((key, value) :: evictList (fdCache (poller w))) = Some (k0, v0) ->
  fdCache_Add key value w =
    Some (true,
          evicted (with_cache (removelast ((key, value) :: evictList (fdCache (poller w)))) w)).
Proof.
  destruct w as [[st pf [sz l] ec] m h t]. cbn [poller fdCache evictList lru_size].
  intros H Hover Hlast.
  unfold fdCache_Add, LRU_Add, LRU_removeOldest. unfold bind at 1. unfold get at 1.
  cbv beta iota. cbn [poller fdCache evictList lru_size]. rewrite H.
  run_prims. proj_simpl. cbn [length].
  destruct (Z.ltb_spec sz (Z.of_nat (S (length l)))); [|lia].
  proj_simpl. rewrite Hlast. run_prims. proj_simpl.
  rewrite fdCacheEvictCallback_eq. reflexivity.
Qed.

Lemma filter_out_shorter key (l : list (string * addressPair)) :
  existsb (has_key key) l = true ->
  (length (List.filter (fun e => negb (has_key key e)) l) < length l)%nat.
Proof.
  induction l as [|e l IH]; [discriminate|]. cbn [existsb List.filter].
  pose proof (List.filter_length_le (fun e => negb (has_key key e)) l).
  destruct (has_key key e); cbn [negb orb length]; [lia|].
  intros Hl. specialize (IH Hl). lia.
Qed.

Lemma length_removelast_cons {A} (x : A) (l : list A) :
  length (removelast (x :: l)) = length l.
Proof.
  revert x. induction l as [|y l IH]; intros x; [reflexivity|].
  change (removelast (x :: y :: l)) with (x :: removelast (y :: l)).
  cbn [length]. now rewrite IH.
Qed.

Lemma last_cons_is_Some {A} (x : A) (l : list A) : is_Some (last (x :: l)).
Proof.
  revert x. induction l as [|y l IH]; intros x; [now exists x|].
  change (last (x :: y :: l)) with (last (y :: l)). apply IH.
Qed.

(** One insertion never lets the cache grow beyond its capacity, whatever
    the key. *)
Lemma fdCache_Add_bounded key value w :
  (Z.of_nat (length (evictList (fdCache (poller w)))) <= lru_size (fdCache (poller w)))%Z ->
  exists b w',
    fdCache_Add key value w = Some (b, w') /\
    lru_size (fdCache (poller w')) = lru_size (fdCache (poller w)) /\
    (Z.of_nat (length (evictList (fdCache (poller w')))) <= lru_size (fdCache (poller w')))%Z.
Proof.
  intros Hle.
  destruct (existsb (has_key key) (evictList (fdCache (poller w)))) eqn:Hex.
  - eexists _, _. split; [exact (fdCache_Add_present key value w Hex)|].
    cbn [with_cache poller fdCache lru_size evictList length]. split; [reflexivity|].
    pose proof (filter_out_shorter key _ Hex). lia.
  - destruct (Z.le_gt_cases (Z.of_nat (S (length (evictList (fdCache (poller w))))))
                            (lru_size (fdCache (poller w)))) as [Hfit|Hover].
    + eexists _, _. split; [exact (fdCache_Add_fits key value w Hex Hfit)|].
      cbn [with_cache poller fdCache lru_size evictList]. split; [reflexivity|].
      cbn [length]. lia.
    + destruct (last_cons_is_Some (key, value) (evictList (fdCache (poller w))))
        as [[k0 v0] Hlast].
      eexists _, _. split; [exact (fdCache_Add_overflow key value w k0 v0 Hex Hover Hlast)|].
      cbn [evicted with_cache poller fdCache lru_size evictList]. split; [reflexivity|].
      rewrite length_removelast_cons. lia.
Qed.

Lemma fdCache_AddAll_bounded kvs :
  forall w,
  (Z.of_nat (length (evictList (fdCache (poller w)))) <= lru_size (fdCache (poller w)))%Z ->
  exists n w',
    fdCache_AddAll kvs w = Some (n, w') /\
    lru_size (fdCache (poller w')) = lru_size (fdCache (poller w)) /\
    (Z.of_nat (length (evictList (fdCache (poller w')))) <= lru_size (fdCache (poller w')))%Z.
Proof.
  induction kvs as [|[key value] rest IH]; intros w Hle.
  - exists 0%nat, w. auto.
  - destruct (fdCache_Add_bounded key value w Hle) as (b & w1 & Hadd & Hsz & Hle1).
    destruct (IH w1 Hle1) as (n & w' & Hall & Hsz' & Hle').
    exists (if b then S n else n), w'. cbn [fdCache_AddAll].
    rewrite (bind_Some _ _ _ _ _ Hadd), (bind_Some _ _ _ _ _ Hall).
    split; [reflexivity|]. split; [congruence|assumption].
Qed.

Lemma existsb_has_key_false key (l : list (string * addressPair)) :
  key ∉ l.*1 -> existsb (has_key key) l = false.
Proof.
  induction l as [|[k v] l IH]; intros Hnot; [reflexivity|].
  cbn [existsb]. rewrite IH.
  - unfold has_key. cbn. rewrite bool_decide_eq_false_2; [reflexivity|].
    intros ->. apply Hnot. cbn. left.
  - intros H. apply Hnot. cbn. now right.
Qed.

(** Distinct new keys that fit are put in front, one after the other, and
    nothing is evicted. *)
Lemma fdCache_AddAll_fits kvs :
  forall w,
  NoDup (kvs.*1 ++ (evictList (fdCache (poller w))).*1) ->
  (Z.of_nat (length kvs + length (evictList (fdCache (poller w)))) <=
     lru_size (fdCache (poller w)))%Z ->
  fdCache_AddAll kvs w =
    Some (0%nat, with_cache (rev kvs ++ evictList (fdCache (poller w))) w).
Proof.
  induction kvs as [|[key value] rest IH]; intros w Hnd Hfit.
  - cbn. destruct w as [[st pf [sz l] ec] m h t]. reflexivity.
  - cbn [fmap list_fmap app] in Hnd. apply NoDup_cons in Hnd as [Hnew Hnd].
    assert (Hex : existsb (has_key key) (evictList (fdCache (poller w))) = false).
    { apply existsb_has_key_false. intros H. apply Hnew. apply elem_of_app. now right. }
    cbn [length] in Hfit.
    assert (Hadd := fdCache_Add_fits key value w Hex ltac:(lia)).
    cbn [fdCache_AddAll]. rewrite (bind_Some _ _ _ _ _ Hadd).
    assert (Hrest : fdCache_AddAll rest
                      (with_cache ((key, value) :: evictList (fdCache (poller w))) w) =
                    Some (0%nat,
                          with_cache (rev rest ++ (key, value) :: evictList (fdCache (poller w)))
                                     (with_cache ((key, value) :: evictList (fdCache (poller w))) w))).
    { apply IH. 2: cbn [with_cache poller fdCache evictList lru_size length]; lia.
      cbn [with_cache poller fdCache evictList fmap list_fmap].
      apply NoDup_app. apply NoDup_app in Hnd as (Hr & Hdis & Hl).
      split; [assumption|]. split.
      * intros x Hx Hx'. apply elem_of_cons in Hx' as [->|Hx'].
        -- apply Hnew. apply elem_of_app. now left.
        -- exact (Hdis x Hx Hx').
      * apply NoDup_cons. split; [|assumption].
        intros H. apply Hnew. apply elem_of_app. now right. }
    rewrite (bind_Some _ _ _ _ _ Hrest).
    cbn [ret with_cache poller fdCache evictList lru_size streams procfs
         evictedCounter streamsMap heap trace rev].
    rewrite <- app_assoc. reflexivity.
Qed.

Lemma fdCache_AddAll_app a b w :
  fdCache_AddAll (a ++ b) w =
    match fdCache_AddAll a w with
    | Some (n1, w1) =>
        match fdCache_AddAll b w1 with
        | Some (n2, w2) => Some ((n1 + n2)%nat, w2)
        | None => None
        end
    | None => None
    end.
Proof.
  revert w. induction a as [|[key value] a IH]; intros w.
  - cbn. now destruct (fdCache_AddAll b w) as [[n2 w2]|].
  - cbn [app fdCache_AddAll]. unfold bind at 1 3.
    destruct (fdCache_Add key value w) as [[ev w0]|]; [|reflexivity].
    unfold bind, ret. rewrite IH.
    destruct (fdCache_AddAll a w0) as [[n1 w1]|]; [|reflexivity].
    destruct (fdCache_AddAll b w1) as [[n2 w2]|]; [|reflexivity].
    now destruct ev.
Qed.

(** *** Construction *)

Lemma newTlsPoller_eq procfs :
  newTlsPoller procfs =
    Ok {| streams := ∅; procfs := procfs;
          fdCache := {| lru_size := 12500; evictList := [] |};
          evictedCounter := 0 |}.
Proof. reflexivity. Qed.

(** C9. [newTlsPoller] returns a poller on every call: the cache
    constructor fails exactly for a non-positive capacity, the capacity it
    is given is the constant 500000 / 40 = 12500, and the poller returned
    has an empty stream registry, an empty cache of that capacity and a
    zero eviction counter. *)
Theorem newTlsPoller_never_fails (procfs : string) :
  fdCacheMaxItems = 12500%Z /\
  (forall size, (exists msg, NewLRU size = Err msg) <-> (size <= 0)%Z) /\
  (exists c, NewLRU fdCacheMaxItems = Ok c) /\
  (forall msg, newTlsPoller procfs <> Err msg) /\
  exists p,
    newTlsPoller procfs = Ok p /\
    streams p = ∅ /\
    fdCache p = {| lru_size := fdCacheMaxItems; evictList := [] |} /\
    evictedCounter p = 0%Z.
Proof.
  split; [reflexivity|]. split; [|split; [|split]].
  - intros size. unfold NewLRU. destruct (Z.leb_spec size 0) as [H|H].
    + split; [intros _; assumption | intros _; eauto].
    + split; [intros [msg Hm]; discriminate | lia].
  - eexists. reflexivity.
  - intros msg. rewrite newTlsPoller_eq. discriminate.
  - eexists. split; [apply newTlsPoller_eq|]. repeat split; reflexivity.
Qed.

(** C8. The capacity of the poller's cache is 500000 / 40 = 12500. For an
    empty cache of any capacity [C]: inserting up to [C] distinct keys
    evicts nothing and leaves the counter and the log alone; inserting
    [C + 1] distinct keys reports exactly one eviction, of the entry
    inserted first (the least recently used), and adds exactly one to the
    eviction counter, leaving [C] entries; and whatever is inserted, the
    cache never holds more than [C] entries. *)
Theorem cache_capacity_and_eviction (C : Z) (kvs : list (string * addressPair))
    (w : world) :
  (0 < C)%Z ->
  fdCache (poller w) = {| lru_size := C; evictList := [] |} ->
  NoDup kvs.*1 ->
  (min_int <= evictedCounter (poller w) < max_int)%Z ->
  fdCacheMaxItems = 12500%Z /\
  (forall procfs, exists p,
     newTlsPoller procfs = Ok p /\
     fdCache p = {| lru_size := 12500; evictList := [] |}) /\
  ((Z.of_nat (length kvs) <= C)%Z ->
   exists w',
     fdCache_AddAll kvs w = Some (0%nat, w') /\
     evictedCounter (poller w') = evictedCounter (poller w) /\
     evictList (fdCache (poller w')) = rev kvs /\
     trace w' = trace w) /\
  (Z.of_nat (length kvs) = (C + 1)%Z ->
   exists kv0 kvs' w',
     kvs = kv0 :: kvs' /\
     fdCache_AddAll kvs w = Some (1%nat, w') /\
     evictedCounter (poller w') = (evictedCounter (poller w) + 1)%Z /\
     evictList (fdCache (poller w')) = rev kvs' /\
     Z.of_nat (length (evictList (fdCache (poller w')))) = C) /\
  (forall more, exists n w',
     fdCache_AddAll more w = Some (n, w') /\
     lru_size (fdCache (poller w')) = C /\
     (Z.of_nat (length (evictList (fdCache (poller w')))) <= C)%Z).
Proof.
  intros HC Hcache Hnd Hrange.
  split; [reflexivity|].
  split; [intros procfs; eexists; split; [apply newTlsPoller_eq|reflexivity]|].
  assert (Hfits : forall front : list (string * addressPair),
             NoDup front.*1 -> (Z.of_nat (length front) <= C)%Z ->
             fdCache_AddAll front w = Some (0%nat, with_cache (rev front) w)).
  { intros front Hf Hlen. rewrite (fdCache_AddAll_fits front w).
    - now rewrite Hcache, app_nil_r.
    - now rewrite Hcache, app_nil_r.
    - rewrite Hcache. cbn [evictList lru_size length]. lia. }
  split; [|split].
  - intros Hlen. exists (with_cache (rev kvs) w).
    split; [now apply Hfits|]. repeat split; reflexivity.
  - intros Hlen.
    destruct kvs as [|kvl front _] using rev_ind; [cbn in Hlen; lia|].
    rewrite length_app in Hlen. cbn [length] in Hlen.
    rewrite fmap_app in Hnd. apply NoDup_app in Hnd as (Hndf & Hdis & _).
    destruct front as [|kv0 mid]; [cbn in Hlen; lia|].
    exists kv0, (mid ++ [kvl]).
    set (w1 := with_cache (rev (kv0 :: mid)) w).
    assert (Hfront : fdCache_AddAll (kv0 :: mid) w = Some (0%nat, w1)).
    { apply Hfits; [assumption|lia]. }
    assert (Hlist : evictList (fdCache (poller w1)) = rev mid ++ [kv0]).
    { reflexivity. }
    assert (Hex : existsb (has_key kvl.1) (evictList (fdCache (poller w1))) = false).
    { apply existsb_has_key_false. rewrite Hlist. intros Hin.
      apply list_elem_of_fmap in Hin as (e & He & Hin).
      apply (Hdis kvl.1); [|cbn; left].
      rewrite He. apply list_elem_of_fmap_2.
      apply elem_of_app in Hin as [Hin|Hin].
      - right. apply list_elem_of_In, List.in_rev. now apply list_elem_of_In.
      - apply list_elem_of_singleton in Hin as ->. left. }
    assert (Hover : (lru_size (fdCache (poller w1)) <
                     Z.of_nat (S (length (evictList (fdCache (poller w1))))))%Z).
    { rewrite Hlist, length_app, length_rev. cbn [w1 with_cache poller fdCache lru_size].
      rewrite Hcache. cbn [lru_size length] in *. lia. }
    assert (Hlast : last ((kvl.1, kvl.2) :: evictList (fdCache (poller w1))) =
                    Some (kv0.1, kv0.2)).
    { rewrite Hlist, app_comm_cons, last_snoc. now destruct kv0. }
    assert (Hadd := fdCache_Add_overflow kvl.1 kvl.2 w1 kv0.1 kv0.2 Hex Hover Hlast).
    eexists. split; [reflexivity|].
    split.
    { rewrite fdCache_AddAll_app, Hfront.
      destruct kvl as [kl vl]. cbn [fdCache_AddAll fst snd] in *.
      rewrite (bind_Some _ _ _ _ _ Hadd). reflexivity. }
    rewrite Hlist, app_comm_cons, List.removelast_last.
    cbn [evicted with_cache w1 poller fdCache evictList evictedCounter].
    split; [apply wrap_int_id; unfold in_int; lia|].
    split; [rewrite rev_app_distr; now destruct kvl|].
    cbn [length]. rewrite length_rev. cbn [length] in Hlen. lia.
  - intros more.
    destruct (fdCache_AddAll_bounded more w) as (n & w' & Hall & Hsz & Hle).
    + rewrite Hcache. cbn. lia.
    + exists n, w'. rewrite Hcache in Hsz. cbn [lru_size] in Hsz.
      rewrite Hsz in Hle. auto.
Qed.

(** ** The ingestion task *)

(** The error line of a failed read: none for the clean-closed sentinel. *)
Lemma readLoop_ReadErr err rest :
  readLoop (ReadErr err :: rest) =
    {| sent := []; chan_closed := true; task_returned := true;
       ilog := if isErrClosed err then []
               else [EvLogError ("Error reading chunks from tls perf, aborting TLS! "
                                 ++ Error err)] |}.
Proof. reflexivity. Qed.

Lemma readLoop_lost record rest :
  LostSamples record <> 0%N ->
  readLoop (ReadOk record :: rest) =
    logged (EvLogInfo ("Buffer is full, dropped " ++ FormatUint (LostSamples record)
                       ++ " chunks"))
           (readLoop rest).
Proof.
  intros H. cbn [readLoop]. now destruct (N.eqb_spec (LostSamples record) 0).
Qed.

(** One successful read puts at most one thing in front of what the rest
    of the loop does: a log line or a chunk. *)
Lemma readLoop_ReadOk record rest :
  exists l c,
    sent (readLoop (ReadOk record :: rest)) = c ++ sent (readLoop rest) /\
    ilog (readLoop (ReadOk record :: rest)) = l ++ ilog (readLoop rest) /\
    chan_closed (readLoop (ReadOk record :: rest)) = chan_closed (readLoop rest) /\
    task_returned (readLoop (ReadOk record :: rest)) = task_returned (readLoop rest) /\
    (LostSamples record <> 0%N -> c = []).
Proof.
  cbn [readLoop]. destruct (N.eqb_spec (LostSamples record) 0) as [H0|H0]; cbn [negb].
  - destruct (binary_Read (RawSample record)) as [chunk|e].
    + exists [], [chunk]. repeat split; try reflexivity. congruence.
    + eexists [_], []. repeat split; reflexivity.
  - eexists [_], []. repeat split; reflexivity.
Qed.

(** While the reads succeed the task neither closes the queue nor returns. *)
Lemma readLoop_running (records : list perfRecord) :
  chan_closed (readLoop (map ReadOk records)) = false /\
  task_returned (readLoop (map ReadOk records)) = false.
Proof.
  induction records as [|record rest IH]; [split; reflexivity|].
  cbn [map]. destruct (readLoop_ReadOk record (map ReadOk rest))
    as (l & c & _ & _ & Hc & Hr & _).
  now rewrite Hc, Hr.
Qed.

(** A failed read after the successful reads [pre]: the queue is closed,
    the task has returned, and nothing after the failure is read. *)
Lemma readLoop_error (pre : list perfRecord) err rest :
  chan_closed (readLoop (map ReadOk pre ++ ReadErr err :: rest)) = true /\
  task_returned (readLoop (map ReadOk pre ++ ReadErr err :: rest)) = true /\
  sent (readLoop (map ReadOk pre ++ ReadErr err :: rest)) = sent (readLoop (map ReadOk pre)) /\
  ilog (readLoop (map ReadOk pre ++ ReadErr err :: rest)) =
    ilog (readLoop (map ReadOk pre)) ++ ilog (readLoop [ReadErr err]) /\
  readLoop (map ReadOk pre ++ ReadErr err :: rest) = readLoop (map ReadOk pre ++ [ReadErr err]).
Proof.
  induction pre as [|record pre IH].
  - cbn. repeat split; reflexivity.
  - destruct IH as (Hc & Hr & Hs & Hl & Heq).
    cbn [map app readLoop]. rewrite Heq in *.
    destruct (negb (LostSamples record =? 0)%N).
    + cbn [logged chan_closed task_returned sent ilog]. rewrite Hl.
      repeat split; assumption.
    + destruct (binary_Read (RawSample record)) as [chunk|e];
        cbn [logged pushed chan_closed task_returned sent ilog]; rewrite ?Hl, ?Hs;
        repeat split; assumption.
Qed.

(** A record in the middle of the reads that reports lost samples changes
    neither what is pushed nor whether the task goes on. *)
Lemma readLoop_skip (pre rest : list readResult) record :
  LostSamples record <> 0%N ->
  sent (readLoop (pre ++ ReadOk record :: rest)) = sent (readLoop (pre ++ rest)) /\
  chan_closed (readLoop (pre ++ ReadOk record :: rest)) = chan_closed (readLoop (pre ++ rest)) /\
  task_returned (readLoop (pre ++ ReadOk record :: rest)) =
    task_returned (readLoop (pre ++ rest)).
Proof.
  intros Hlost. induction pre as [|r pre IH].
  - cbn [app]. rewrite (readLoop_lost _ _ Hlost). repeat split; reflexivity.
  - destruct IH as (Hs & Hc & Hr). destruct r as [record'|err].
    + cbn [app readLoop]. destruct (negb (LostSamples record' =? 0)%N).
      * cbn [logged chan_closed task_returned sent]. repeat split; assumption.
      * destruct (binary_Read (RawSample record')) as [chunk|e];
          cbn [logged pushed chan_closed task_returned sent]; rewrite ?Hs;
          repeat split; assumption.
    + repeat split; reflexivity.
Qed.

(** The log of the loop on reads that begin with successful ones: the
    lines of those reads, then the lines of the others. *)
Lemma readLoop_ilog_app (records : list perfRecord) (rest : list readResult) :
  ilog (readLoop (map ReadOk records ++ rest)) =
    ilog (readLoop (map ReadOk records)) ++ ilog (readLoop rest).
Proof.
  induction records as [|record records IH]; [reflexivity|].
  cbn [map app readLoop]. destruct (negb (LostSamples record =? 0)%N).
  - cbn [logged ilog]. now rewrite IH.
  - destruct (binary_Read (RawSample record)); cbn [logged pushed ilog]; now rewrite IH.
Qed.

(** C6. A record whose lost-sample count is not zero makes the loop log
    the count and go on with the next read. The log of the loop from that
    read on is the line "Buffer is full, dropped <count> chunks" and then
    the log of the loop on the reads that follow; after successful reads
    the log of the task is its log on those reads, then that line, then the
    lines of the reads that follow. Wherever the record occurs among the
    reads, the chunks pushed onto the handoff queue, the state of the queue
    and whether the task has returned are what they are without it; and on
    reads that all succeed the task never returns. *)
Theorem lost_samples_are_skipped (pre rest : list readResult) (record : perfRecord) :
  LostSamples record <> 0%N ->
  readLoop (ReadOk record :: rest) =
    logged (EvLogInfo ("Buffer is full, dropped " ++ FormatUint (LostSamples record)
                       ++ " chunks"))
           (readLoop rest) /\
  ilog (readLoop (ReadOk record :: rest)) =
    EvLogInfo ("Buffer is full, dropped " ++ FormatUint (LostSamples record) ++ " chunks")
    :: ilog (readLoop rest) /\
  (forall records : list perfRecord,
     ilog (pollChunksPerfBuffer (map ReadOk records ++ ReadOk record :: rest)) =
       ilog (pollChunksPerfBuffer (map ReadOk records)) ++
       EvLogInfo ("Buffer is full, dropped " ++ FormatUint (LostSamples record) ++ " chunks")
       :: ilog (readLoop rest)) /\
  sent (readLoop (ReadOk record :: rest)) = sent (readLoop rest) /\
  task_returned (readLoop (ReadOk record :: rest)) = task_returned (readLoop rest) /\
  sent (pollChunksPerfBuffer (pre ++ ReadOk record :: rest)) =
    sent (pollChunksPerfBuffer (pre ++ rest)) /\
  chan_closed (pollChunksPerfBuffer (pre ++ ReadOk record :: rest)) =
    chan_closed (pollChunksPerfBuffer (pre ++ rest)) /\
  task_returned (pollChunksPerfBuffer (pre ++ ReadOk record :: rest)) =
    task_returned (pollChunksPerfBuffer (pre ++ rest)) /\
  handoff (pollChunksPerfBuffer (pre ++ ReadOk record :: rest)) =
    handoff (pollChunksPerfBuffer (pre ++ rest)) /\
  (forall records : list perfRecord,
     task_returned (pollChunksPerfBuffer (map ReadOk records)) = false).
Proof.
  intros Hlost. pose proof (readLoop_lost record rest Hlost) as Heq.
  destruct (readLoop_skip pre rest record Hlost) as (Hs & Hc & Hr).
  split; [exact Heq|].
  split; [rewrite Heq; reflexivity|].
  split.
  { intros records. unfold pollChunksPerfBuffer. cbn [logged ilog].
    rewrite readLoop_ilog_app, Heq. reflexivity. }
  rewrite Heq.
  unfold pollChunksPerfBuffer, handoff.
  cbn [logged sent chan_closed task_returned]. rewrite Hs, Hc.
  repeat split; try reflexivity; try assumption.
  intros records. apply readLoop_running.
Qed.

(** ** The demultiplexer *)

Section DemultiplexerProperties.

Variable IP_String : IP -> string.
Variable getAddressPair : tracerTlsChunk -> addressPair.
Variable isRequest : tracerTlsChunk -> bool.

Local Abbreviation handleTlsChunk' := (handleTlsChunk IP_String getAddressPair isRequest).
Local Abbreviation poll' := (poll IP_String getAddressPair isRequest).
Local Abbreviation flowKey' := (flowKey IP_String getAddressPair isRequest).
Local Abbreviation fresh_stream' := (fresh_stream IP_String getAddressPair isRequest).
Local Abbreviation creation_events' :=
  (creation_events IP_String getAddressPair isRequest).
Local Abbreviation routed_to' := (routed_to IP_String getAddressPair isRequest).
Local Abbreviation chunk_of' := (chunk_of IP_String getAddressPair isRequest).
Local Abbreviation flow_chunks' := (flow_chunks IP_String getAddressPair isRequest).

(** A chunk of an unseen flow: the whole effect of [handleTlsChunk]. *)
Lemma handleTlsChunk_new chunk w :
  streams (poller w) !! flowKey' chunk = None ->
  handleTlsChunk' chunk w =
    let s := length (heap w) in
    let id := (streamId (streamsMap w) + 1)%Z in
    Some (None,
      {| poller := {| streams := <[flowKey' chunk := s]> (streams (poller w));
                      procfs := procfs (poller w); fdCache := fdCache (poller w);
                      evictedCounter := evictedCounter (poller w) |};
         streamsMap := {| table := <[id := s]> (table (streamsMap w)); streamId := id |};
         heap := heap w ++ [fresh_stream' chunk w];
         trace := trace w ++ creation_events' chunk w |}).
Proof.
  intros Hk. unfold handleTlsChunk. fold (flowKey' chunk).
  destruct w as [p m h t]. cbn [poller streamsMap heap trace] in *.
  unfold bind at 1. unfold get at 1. cbv beta iota. cbn [poller]. rewrite Hk.
  unfold getReader. run_prims.
  unfold fresh_stream, creation_events, deliver.
  destruct (isRequest chunk);
    repeat (rewrite ?lookup_snoc, ?insert_snoc; cbv beta iota; proj_simpl);
    rewrite <- !app_assoc; reflexivity.
Qed.

(** A chunk of a registered flow: the whole effect of [handleTlsChunk]. *)
Lemma handleTlsChunk_old chunk w s st :
  streams (poller w) !! flowKey' chunk = Some s ->
  heap w !! s = Some st ->
  is_Some (client st) -> is_Some (server st) ->
  handleTlsChunk' chunk w =
    Some (None,
      {| poller := poller w; streamsMap := streamsMap w;
         heap := <[s := deliver (isRequest chunk) chunk st]> (heap w);
         trace := trace w ++ [EvNewChunk s (isRequest chunk) chunk] |}).
Proof.
  intros Hk Hs [rc Hc] [rs Hr]. unfold handleTlsChunk. fold (flowKey' chunk).
  destruct w as [p m h t]. cbn [poller streamsMap heap trace] in *.
  unfold bind at 1. unfold get at 1. cbv beta iota. cbn [poller]. rewrite Hk.
  unfold getReader. run_prims. rewrite Hs. cbv beta iota. unfold deliver.
  destruct (isRequest chunk); rewrite ?Hc, ?Hr; cbv beta iota; rewrite ?Hs;
    cbv beta iota; rewrite ?Hc, ?Hr; cbv beta iota; rewrite ?Hs;
    proj_simpl; reflexivity.
Qed.

Lemma deliver_client side chunk st : is_Some (client st) -> is_Some (client (deliver side chunk st)).
Proof. intros [r Hr]. unfold deliver. destruct side; cbn; rewrite ?Hr; cbn; eauto. Qed.

Lemma deliver_server side chunk st : is_Some (server st) -> is_Some (server (deliver side chunk st)).
Proof. intros [r Hr]. unfold deliver. destruct side; cbn; rewrite ?Hr; cbn; eauto. Qed.

Lemma deliver_id side chunk st : st_id (deliver side chunk st) = st_id st.
Proof. unfold deliver. now destruct side. Qed.

Lemma fresh_stream_ready chunk w :
  is_Some (client (fresh_stream' chunk w)) /\
  is_Some (server (fresh_stream' chunk w)) /\
  st_id (fresh_stream' chunk w) = (streamId (streamsMap w) + 1)%Z.
Proof.
  unfold fresh_stream. split; [|split].
  - apply deliver_client. cbn. eauto.
  - apply deliver_server. cbn. eauto.
  - now rewrite deliver_id.
Qed.

(** What one call of [handleTlsChunk] does to a well-formed world: it
    returns nil, keeps the world well formed, and either routes the chunk
    to the registered stream of its flow or creates that stream. *)
Lemma handleTlsChunk_spec chunk w :
  wf w ->
  exists w' ev,
    handleTlsChunk' chunk w = Some (None, w') /\ wf w' /\
    trace w' = trace w ++ ev /\
    fdCache (poller w') = fdCache (poller w) /\
    evictedCounter (poller w') = evictedCounter (poller w) /\
    match streams (poller w) !! flowKey' chunk with
    | Some s =>
        streams (poller w') = streams (poller w) /\
        streamsMap w' = streamsMap w /\
        ev = [EvNewChunk s (isRequest chunk) chunk]
    | None =>
        streams (poller w') = <[flowKey' chunk := length (heap w)]> (streams (poller w)) /\
        streamId (streamsMap w') = (streamId (streamsMap w) + 1)%Z /\
        ev = creation_events' chunk w
    end.
Proof.
  intros Hwf.
  destruct (streams (poller w) !! flowKey' chunk) as [s|] eqn:Hk.
  - destruct (Hwf _ _ Hk) as (st & Hs & Hc & Hr & Hid).
    eexists _, _. split; [exact (handleTlsChunk_old _ _ _ _ Hk Hs Hc Hr)|].
    cbn [poller streamsMap heap trace]. repeat split; try reflexivity.
    intros k' s' Hk'. destruct (Hwf _ _ Hk') as (st' & Hs' & Hc' & Hr' & Hid').
    unfold stream_ready. cbn [poller streamsMap heap trace].
    destruct (decide (s' = s)) as [->|Hne].
    + exists (deliver (isRequest chunk) chunk st).
      rewrite list_lookup_insert_eq by (now apply lookup_lt_Some in Hs).
      rewrite deliver_id. auto using deliver_client, deliver_server.
    + exists st'. now rewrite list_lookup_insert_ne by congruence.
  - eexists _, _. split; [exact (handleTlsChunk_new _ _ Hk)|].
    cbn zeta. cbn [poller streamsMap heap trace streams fdCache evictedCounter streamId].
    repeat split; try reflexivity.
    intros k' s' Hk'. unfold stream_ready.
    cbn [poller streamsMap heap trace streams streamId] in *.
    destruct (fresh_stream_ready chunk w) as (Hc & Hr & Hid).
    rewrite lookup_insert in Hk'. case_decide as Hkk.
    + injection Hk' as <-. exists (fresh_stream' chunk w).
      rewrite lookup_snoc, Hid. repeat split; auto. lia.
    + destruct (Hwf _ _ Hk') as (st' & Hs' & Hc' & Hr' & Hid').
      exists st'. rewrite lookup_app_l by (now apply lookup_lt_Some in Hs').
      repeat split; auto. lia.
Qed.

(** *** Unfolding the loop of [poll] *)

Lemma poll_nil w : poll' [] w = Some (false, w).
Proof. reflexivity. Qed.

Lemma poll_closed rest w : poll' (MsgChunksClosed :: rest) w = Some (true, w).
Proof. reflexivity. Qed.

Lemma poll_chunk chunk rest w w1 :
  handleTlsChunk' chunk w = Some (None, w1) ->
  poll' (MsgChunk chunk :: rest) w = poll' rest w1.
Proof.
  intros H. cbn [poll]. rewrite (bind_Some _ _ _ _ _ H). reflexivity.
Qed.

Lemma poll_close key rest w :
  poll' (MsgCloseStream key :: rest) w = poll' rest (without key w).
Proof. reflexivity. Qed.

Lemma wf_without key w : wf w -> wf (without key w).
Proof.
  intros Hwf k s Hk. cbn in Hk. apply lookup_delete_Some in Hk as [_ Hk].
  destruct (Hwf _ _ Hk) as (st & ? & ? & ? & ?). exists st. auto.
Qed.

(** *** One chunk, seen from a flow [k] *)

Lemma creation_events_counts chunk w k :
  count is_NextId (creation_events' chunk w) = 1%nat /\
  count is_NewTlsStream (creation_events' chunk w) = 1%nat /\
  count (is_NewTlsStream_for k) (creation_events' chunk w) =
    (if decide (flowKey' chunk = k) then 1 else 0)%nat /\
  count is_LogError (creation_events' chunk w) = 0%nat.
Proof.
  unfold creation_events, count. cbn. repeat split.
  destruct (decide (flowKey' chunk = k)) as [He|He].
  - now rewrite bool_decide_eq_true_2.
  - now rewrite bool_decide_eq_false_2.
Qed.

Lemma handleTlsChunk_flow k chunk w :
  wf w ->
  exists w' ev,
    handleTlsChunk' chunk w = Some (None, w') /\ wf w' /\
    trace w' = trace w ++ ev /\
    count is_NextId ev = count is_NewTlsStream ev /\
    count is_LogError ev = 0%nat /\
    count (is_NewTlsStream_for k) ev =
      (if decide (flowKey' chunk = k)
       then match streams (poller w) !! k with Some _ => 0 | None => 1 end
       else 0)%nat /\
    streams (poller w') !! k =
      (if decide (flowKey' chunk = k)
       then match streams (poller w) !! k with
            | Some s => Some s
            | None => Some (length (heap w))
            end
       else streams (poller w) !! k) /\
    (forall s side c, EvNewChunk s side c ∈ ev ->
       c = chunk /\ streams (poller w') !! flowKey' chunk = Some s) /\
    (forall e, e ∈ ev -> is_NewTlsStream e = true ->
       is_NewTlsStream_for (flowKey' chunk) e = true).
Proof.
  intros Hwf.
  destruct (handleTlsChunk_spec chunk w Hwf) as (w' & ev & Hrun & Hwf' & Htr & _ & _ & Hcase).
  exists w', ev. do 3 (split; [assumption|]).
  destruct (streams (poller w) !! flowKey' chunk) as [s|] eqn:Hk.
  - destruct Hcase as (Hreg & _ & ->). rewrite Hreg.
    repeat split; try reflexivity.
    + destruct (decide (flowKey' chunk = k)) as [He|He]; [|reflexivity].
      now rewrite <- He, Hk.
    + destruct (decide (flowKey' chunk = k)) as [He|He]; [|reflexivity].
      now rewrite <- He, Hk.
    + apply list_elem_of_singleton in H. congruence.
    + apply list_elem_of_singleton in H. injection H as -> _ _. assumption.
    + intros e He. apply list_elem_of_singleton in He as ->. discriminate.
  - destruct Hcase as (Hreg & _ & ->). rewrite Hreg.
    destruct (creation_events_counts chunk w k) as (Hn & Hs & Hf & Hl).
    split; [congruence|]. split; [assumption|]. split; [|split; [|split]].
    + rewrite Hf. destruct (decide (flowKey' chunk = k)) as [He|He]; [|reflexivity].
      now rewrite <- He, Hk.
    + rewrite lookup_insert. destruct (decide (flowKey' chunk = k)) as [He|He]; [|reflexivity].
      now rewrite <- He, Hk.
    + intros s side c Hin. rewrite lookup_insert_eq.
      unfold creation_events in Hin. set_unfold in Hin.
      destruct Hin as [H|[H|[H|[H|[H|[H|[]]]]]]]; try discriminate.
      injection H as -> -> ->. auto.
    + intros e Hin He. unfold creation_events in Hin. set_unfold in Hin.
      destruct Hin as [->|[->|[->|[->|[->|[->|[]]]]]]]; try discriminate.
      cbn. now rewrite bool_decide_eq_true_2.
Qed.

(** *** A run of the loop, seen from a flow [k] *)

Lemma poll_flow k msgs :
  forallb (keeps k) msgs = true ->
  forall w, wf w ->
  exists w' added,
    poll' msgs w = Some (false, w') /\ wf w' /\
    trace w' = trace w ++ added /\
    count is_NextId added = count is_NewTlsStream added /\
    count is_LogError added = 0%nat /\
    count (is_NewTlsStream_for k) added =
      match streams (poller w) !! k with
      | Some _ => 0%nat
      | None => if existsb (chunk_of' k) msgs then 1%nat else 0%nat
      end /\
    match streams (poller w) !! k with
    | Some s => streams (poller w') !! k = Some s
    | None => if existsb (chunk_of' k) msgs
              then is_Some (streams (poller w') !! k)
              else streams (poller w') !! k = None
    end /\
    (forall s, streams (poller w') !! k = Some s -> routed_to' k s added) /\
    (forall e, e ∈ added -> is_NewTlsStream e = true ->
       exists chunk, MsgChunk chunk ∈ msgs /\
                     is_NewTlsStream_for (flowKey' chunk) e = true).
Proof.
  induction msgs as [|m rest IH]; intros Hkeep w Hwf.
  - exists w, []. rewrite app_nil_r. repeat split; try reflexivity; try assumption.
    + now destruct (streams (poller w) !! k).
    + now destruct (streams (poller w) !! k).
    + intros s _ s' side c Hin. now apply elem_of_nil in Hin.
    + intros e Hin. now apply elem_of_nil in Hin.
  - cbn [forallb] in Hkeep. apply andb_true_iff in Hkeep as [Hm Hrest].
    destruct m as [chunk| |k'].
    + destruct (handleTlsChunk_flow k chunk w Hwf)
        as (w1 & ev & Hrun & Hwf1 & Htr1 & Hn1 & Hl1 & Hc1 & Hreg1 & Hrt1 & Hnew1).
      destruct (IH Hrest w1 Hwf1)
        as (w' & added & Hpoll & Hwf' & Htr & Hn & Hl & Hc & Hreg & Hrt & Hnew).
      exists w', (ev ++ added).
      split; [now rewrite (poll_chunk _ _ _ _ Hrun)|].
      split; [assumption|].
      split; [now rewrite Htr, Htr1, app_assoc|].
      split; [rewrite !count_app; congruence|].
      split; [rewrite count_app, Hl1, Hl; reflexivity|].
      cbn [existsb chunk_of].
      assert (Hstay : forall s, streams (poller w1) !! k = Some s ->
                                streams (poller w') !! k = Some s).
      { intros s Hs. now rewrite Hs in Hreg. }
      split; [|split; [|split]].
      * rewrite count_app, Hc1, Hc, Hreg1.
        destruct (decide (flowKey' chunk = k)) as [He|He].
        -- rewrite (bool_decide_eq_true_2 _ He). cbn [orb].
           now destruct (streams (poller w) !! k).
        -- rewrite (bool_decide_eq_false_2 _ He). cbn [orb].
           now destruct (streams (poller w) !! k).
      * rewrite Hreg1 in Hreg.
        destruct (decide (flowKey' chunk = k)) as [He|He].
        -- rewrite (bool_decide_eq_true_2 _ He). cbn [orb].
           destruct (streams (poller w) !! k); [assumption|]. rewrite Hreg. eauto.
        -- rewrite (bool_decide_eq_false_2 _ He). cbn [orb]. assumption.
      * intros s Hs s' side c Hin Hkey. apply elem_of_app in Hin as [Hin|Hin].
        -- destruct (Hrt1 _ _ _ Hin) as [-> Hs']. rewrite Hkey in Hs'.
           apply Hstay in Hs'. congruence.
        -- exact (Hrt s Hs s' side c Hin Hkey).
      * intros e Hin He. apply elem_of_app in Hin as [Hin|Hin].
        -- exists chunk. split; [left|]. now apply Hnew1.
        -- destruct (Hnew e Hin He) as (c & Hc' & Hfor). exists c. split; [now right|assumption].
    + discriminate Hm.
    + cbn [keeps] in Hm. apply negb_true_iff, bool_decide_eq_false in Hm.
      destruct (IH Hrest (without k' w) (wf_without k' w Hwf))
        as (w' & added & Hpoll & Hwf' & Htr & Hn & Hl & Hc & Hreg & Hrt & Hnew).
      assert (Hk : streams (poller (without k' w)) !! k = streams (poller w) !! k).
      { cbn. now apply lookup_delete_ne. }
      rewrite Hk in Hc, Hreg.
      exists w', added. rewrite poll_close. cbn [existsb chunk_of orb].
      repeat split; try assumption.
      intros e Hin He. destruct (Hnew e Hin He) as (c & Hc' & Hfor).
      exists c. split; [now right|assumption].
Qed.

(** The one call of [newChunk] that [handleTlsChunk] makes: on the
    stream registered for the flow of the chunk, on the side of the
    chunk. *)
Lemma handleTlsChunk_newChunk chunk w :
  wf w ->
  exists w' ev s,
    handleTlsChunk' chunk w = Some (None, w') /\ wf w' /\
    trace w' = trace w ++ ev /\
    streams (poller w') !! flowKey' chunk = Some s /\
    dispatched ev = [(s, isRequest chunk, chunk)].
Proof.
  intros Hwf.
  destruct (handleTlsChunk_spec chunk w Hwf) as (w' & ev & Hrun & Hwf' & Htr & _ & _ & Hcase).
  destruct (streams (poller w) !! flowKey' chunk) as [s|] eqn:Hk.
  - destruct Hcase as (Hreg & _ & ->). eexists w', _, s.
    rewrite Hreg. eauto 10.
  - destruct Hcase as (Hreg & _ & ->). eexists w', _, (length (heap w)).
    rewrite Hreg, lookup_insert_eq. eauto 10.
Qed.

(** The calls of [newChunk] on chunks of the flow [k] in a run of the
    loop: one for each chunk of [k] received, in arrival order, each on the
    stream registered for [k] and on the side of the chunk. *)
Lemma poll_flow_newChunk k msgs :
  forallb (keeps k) msgs = true ->
  forall w w' added s, wf w ->
    poll' msgs w = Some (false, w') -> trace w' = trace w ++ added ->
    streams (poller w') !! k = Some s ->
    List.filter (fun d => bool_decide (flowKey' d.2 = k)) (dispatched added) =
      (fun chunk => (s, isRequest chunk, chunk)) <$> flow_chunks' k msgs.
Proof.
  induction msgs as [|m rest IH]; intros Hkeep w w' added s Hwf Hpoll Htr Hs.
  - rewrite poll_nil in Hpoll. injection Hpoll as <-.
    rewrite <- (app_nil_r (trace w)) in Htr at 1. apply app_inv_head in Htr as <-.
    reflexivity.
  - cbn [forallb] in Hkeep. apply andb_true_iff in Hkeep as [Hm Hrest].
    destruct m as [chunk| |k'].
    + destruct (handleTlsChunk_newChunk chunk w Hwf)
        as (w1 & ev & s1 & Hrun & Hwf1 & Htr1 & Hs1 & Hev).
      rewrite (poll_chunk _ _ _ _ Hrun) in Hpoll.
      destruct (poll_flow k rest Hrest w1 Hwf1)
        as (w2 & added1 & Hpoll2 & _ & Htr2 & _ & _ & _ & Hreg & _).
      rewrite Hpoll in Hpoll2. injection Hpoll2 as <-.
      rewrite Htr2, Htr1, <- app_assoc in Htr. apply app_inv_head in Htr as <-.
      unfold dispatched in *. rewrite omap_app, List.filter_app, Hev.
      rewrite (IH Hrest w1 w' added1 s Hwf1 Hpoll Htr2 Hs).
      unfold flow_chunks. cbn [handled List.filter app snd].
      destruct (decide (flowKey' chunk = k)) as [He|He].
      * rewrite (bool_decide_eq_true_2 _ He). cbn [fmap list_fmap app].
        rewrite He in Hs1. rewrite Hs1 in Hreg. congruence.
      * rewrite (bool_decide_eq_false_2 _ He). reflexivity.
    + discriminate Hm.
    + rewrite poll_close in Hpoll.
      exact (IH Hrest (without k' w) w' added s (wf_without k' w Hwf) Hpoll Htr Hs).
Qed.

(** While the loop is not told of the closure it handles every chunk it
    receives. *)
Lemma handled_keeps k msgs chunk :
  forallb (keeps k) msgs = true -> MsgChunk chunk ∈ msgs -> chunk ∈ handled msgs.
Proof.
  induction msgs as [|m rest IH]; intros Hkeep Hin; [now apply elem_of_nil in Hin|].
  cbn [forallb] in Hkeep. apply andb_true_iff in Hkeep as [Hm Hrest].
  apply elem_of_cons in Hin as [<-|Hin].
  - left.
  - destruct m as [c| |k']; cbn [handled]; [right| discriminate Hm |]; auto.
Qed.

(** C1. Take any run of the loop on chunks of any flows and teardowns of
    flows other than [k], in which at least one chunk maps to the FlowKey
    [k]. Then exactly one Stream is created for [k] if [k] was not
    registered (none if it was), every creation in the run requests one
    identity from the allocator and nothing else does, and [k] is
    registered at the end, to the stream it was registered to at the start
    if there was one. Every chunk of [k] is dispatched to that stream: the
    calls of [newChunk] on chunks of [k] are one for each chunk of [k]
    received, in arrival order, each on that stream and on the side of the
    chunk, and no chunk of [k] is dispatched anywhere else. When the run
    consists of chunks of [k] only, the identities requested are those
    creations: one for an unseen key. *)
Theorem one_stream_per_flow (k : string) (msgs : list pollMsg) (w : world) :
  wf w ->
  forallb (keeps k) msgs = true ->
  existsb (chunk_of' k) msgs = true ->
  exists w' added s,
    poll' msgs w = Some (false, w') /\
    trace w' = trace w ++ added /\
    count (is_NewTlsStream_for k) added =
      match streams (poller w) !! k with Some _ => 0%nat | None => 1%nat end /\
    count is_NextId added = count is_NewTlsStream added /\
    streams (poller w') !! k = Some s /\
    (forall s0, streams (poller w) !! k = Some s0 -> s = s0) /\
    routed_to' k s added /\
    List.filter (fun d => bool_decide (flowKey' d.2 = k)) (dispatched added) =
      (fun chunk => (s, isRequest chunk, chunk)) <$> flow_chunks' k msgs /\
    (forall chunk, MsgChunk chunk ∈ msgs -> flowKey' chunk = k ->
       EvNewChunk s (isRequest chunk) chunk ∈ added) /\
    (forallb (chunk_of' k) msgs = true ->
     count is_NextId added = match streams (poller w) !! k with Some _ => 0%nat | None => 1%nat end).
Proof.
  intros Hwf Hkeep Hex.
  destruct (poll_flow k msgs Hkeep w Hwf)
    as (w' & added & Hpoll & Hwf' & Htr & Hn & Hl & Hc & Hreg & Hrt & Hnew).
  rewrite Hex in Hc, Hreg.
  assert (Hs : exists s, streams (poller w') !! k = Some s /\
                         forall s0, streams (poller w) !! k = Some s0 -> s = s0).
  { destruct (streams (poller w) !! k) as [s0|].
    - exists s0. split; [assumption|]. congruence.
    - destruct Hreg as [s Hs]. exists s. split; [assumption|]. discriminate. }
  destruct Hs as (s & Hs & Hs0).
  pose proof (poll_flow_newChunk k msgs Hkeep w w' added s Hwf Hpoll Htr Hs) as Hdisp.
  exists w', added, s.
  do 2 (split; [assumption|]).
  split; [exact Hc|]. split; [assumption|]. split; [assumption|].
  split; [assumption|]. split; [now apply Hrt|].
  split; [exact Hdisp|].
  split.
  { intros chunk Hin Hkey.
    assert (Hd : (s, isRequest chunk, chunk) ∈
                 List.filter (fun d => bool_decide (flowKey' d.2 = k)) (dispatched added)).
    { rewrite Hdisp. apply list_elem_of_fmap. exists chunk. split; [reflexivity|].
      unfold flow_chunks. apply list_elem_of_In, filter_In. split.
      - apply list_elem_of_In. exact (handled_keeps k msgs chunk Hkeep Hin).
      - now apply bool_decide_eq_true. }
    apply list_elem_of_In, filter_In in Hd as [Hd _]. apply list_elem_of_In in Hd.
    unfold dispatched in Hd. apply list_elem_of_omap in Hd as (e & He & Hde).
    destruct e; try discriminate. cbn in Hde. now injection Hde as -> -> ->. }
  intros Hall. rewrite Hn.
  { 
    rewrite (count_ext is_NewTlsStream (is_NewTlsStream_for k)).
    + exact Hc.
    + intros e He. destruct (is_NewTlsStream e) eqn:Hnewe.
      * destruct (Hnew e He Hnewe) as (c & Hin & Hfor).
        rewrite forallb_forall in Hall. apply list_elem_of_In, Hall in Hin.
        cbn in Hin. apply bool_decide_eq_true in Hin. now rewrite <- Hin, Hfor.
      * destruct e; try reflexivity. discriminate. }
Qed.

(** *** Any run of the loop *)

Lemma poll_total msgs :
  forall w, wf w ->
  exists b w' added,
    poll' msgs w = Some (b, w') /\ wf w' /\
    trace w' = trace w ++ added /\ count is_LogError added = 0%nat.
Proof.
  induction msgs as [|m rest IH]; intros w Hwf.
  - exists false, w, []. now rewrite app_nil_r.
  - destruct m as [chunk| |k'].
    + destruct (handleTlsChunk_flow "" chunk w Hwf)
        as (w1 & ev & Hrun & Hwf1 & Htr1 & _ & Hl1 & _).
      destruct (IH w1 Hwf1) as (b & w' & added & Hpoll & Hwf' & Htr & Hl).
      exists b, w', (ev ++ added). rewrite (poll_chunk _ _ _ _ Hrun).
      repeat split; try assumption.
      * now rewrite Htr, Htr1, app_assoc.
      * now rewrite count_app, Hl1, Hl.
    + exists true, w, []. now rewrite app_nil_r.
    + destruct (IH (without k' w) (wf_without k' w Hwf))
        as (b & w' & added & Hpoll & Hwf' & Htr & Hl).
      exists b, w', added. rewrite poll_close. auto.
Qed.

Lemma bind_cases {A B} (m : M A) (f : A -> M B) (P : option (B * world) -> Prop) w :
  P None -> (forall a w1, P (f a w1)) -> P (bind m f w).
Proof. intros HN HS. unfold bind. destruct (m w) as [[a w1]|]; auto. Qed.

(** C10. [handleTlsChunk] has no error path: on any world whatever, a call
    that returns returns nil. From a well-formed world it does return (no
    nil or dangling pointer is met), and a run of [poll] on any messages
    adds no error line to the log: the dispatch-error branch is not
    taken. *)
Theorem handleTlsChunk_returns_nil (chunk : tracerTlsChunk) (msgs : list pollMsg)
    (w : world) :
  wf w ->
  (forall w0, handleTlsChunk' chunk w0 = None \/
              exists w', handleTlsChunk' chunk w0 = Some (None, w')) /\
  (exists w', handleTlsChunk' chunk w = Some (None, w') /\ wf w') /\
  (exists b w', poll' msgs w = Some (b, w') /\
                count is_LogError (trace w') = count is_LogError (trace w)).
Proof.
  intros Hwf. split; [|split].
  - intros w0. unfold handleTlsChunk.
    apply (bind_cases _ _ (fun r => r = None \/ exists w', r = Some (None, w')));
      [now left | intros w1 w2].
    apply (bind_cases _ _ (fun r => r = None \/ exists w', r = Some (None, w')));
      [now left | intros stream w3].
    apply (bind_cases _ _ (fun r => r = None \/ exists w', r = Some (None, w')));
      [now left | intros reader w4].
    apply (bind_cases _ _ (fun r => r = None \/ exists w', r = Some (None, w')));
      [now left | intros [] w5].
    right. now exists w5.
  - destruct (handleTlsChunk_spec chunk w Hwf) as (w' & ev & Hrun & Hwf' & _).
    now exists w'.
  - destruct (poll_total msgs w Hwf) as (b & w' & added & Hpoll & _ & Htr & Hl).
    exists b, w'. split; [assumption|]. rewrite Htr, count_app, Hl. lia.
Qed.

(** C3, as amended. When a chunk of an unseen flow creates the stream,
    the client context is built with the request-oriented identity of the
    address pair of that chunk (observed source as source) and the server
    context with the response-oriented one (source and destination
    swapped), through [NewTlsReader] with the role flags true and false.
    Both identities are functions of the address pair of the triggering
    chunk alone: its direction flag does not occur in them. For a
    triggering chunk whose pair is 10.0.0.1:5000 > 10.0.0.2:443 they are
    the two identities of the scenario, whether the chunk is tagged request
    or response. *)
Theorem identities_bound_at_creation (chunk : tracerTlsChunk) (w : world) :
  streams (poller w) !! flowKey' chunk = None ->
  let a := getAddressPair chunk in
  exists w' s st rc rs,
    handleTlsChunk' chunk w = Some (None, w') /\
    streams (poller w') !! flowKey' chunk = Some s /\
    heap w' !! s = Some st /\
    client st = Some rc /\ server st = Some rs /\
    isClient rc = true /\ isClient rs = false /\
    parent rc = s /\ parent rs = s /\
    tcpID rc = buildTcpId IP_String a true /\
    tcpID rs = buildTcpId IP_String a false /\
    tcpID rc = {| SrcIP := IP_String (srcIp a); DstIP := IP_String (dstIp a);
                  SrcPort := FormatUint (srcPort a);
                  DstPort := FormatUint (dstPort a) |} /\
    tcpID rs = {| SrcIP := IP_String (dstIp a); DstIP := IP_String (srcIp a);
                  SrcPort := FormatUint (dstPort a);
                  DstPort := FormatUint (srcPort a) |} /\
    EvNewTlsReader (buildTcpId IP_String a true) s true ∈ trace w' /\
    EvNewTlsReader (buildTcpId IP_String a false) s false ∈ trace w' /\
    (IP_String (srcIp a) = "10.0.0.1" -> srcPort a = 5000%N ->
     IP_String (dstIp a) = "10.0.0.2" -> dstPort a = 443%N ->
     tcpID rc = {| SrcIP := "10.0.0.1"; DstIP := "10.0.0.2";
                   SrcPort := "5000"; DstPort := "443" |} /\
     tcpID rs = {| SrcIP := "10.0.0.2"; DstIP := "10.0.0.1";
                   SrcPort := "443"; DstPort := "5000" |}).
Proof.
  intros Hk a.
  pose proof (handleTlsChunk_new chunk w Hk) as Hrun. cbn zeta in Hrun.
  assert (Hfresh : exists rc rs,
    client (fresh_stream' chunk w) = Some rc /\
    server (fresh_stream' chunk w) = Some rs /\
    isClient rc = true /\ isClient rs = false /\
    parent rc = length (heap w) /\ parent rs = length (heap w) /\
    tcpID rc = buildTcpId IP_String a true /\
    tcpID rs = buildTcpId IP_String a false).
  { unfold fresh_stream, deliver. fold a.
    destruct (isRequest chunk); cbn; eexists _, _; repeat split; reflexivity. }
  destruct Hfresh as (rc & rs & Hc & Hs & Hic & Hisr & Hpc & Hps & Htc & Hts).
  eexists. exists (length (heap w)), (fresh_stream' chunk w), rc, rs.
  split; [exact Hrun|]. cbn [poller streams heap trace].
  split; [apply lookup_insert_eq|]. split; [apply lookup_snoc|].
  do 8 (split; [assumption|]).
  split; [rewrite Htc; reflexivity|]. split; [rewrite Hts; reflexivity|].
  split; [|split].
  - apply elem_of_app. right. unfold creation_events. fold a. set_solver.
  - apply elem_of_app. right. unfold creation_events. fold a. set_solver.
  - intros Hsi Hsp Hdi Hdp. rewrite Htc, Hts. unfold buildTcpId.
    rewrite Hsi, Hsp, Hdi, Hdp. split; reflexivity.
Qed.

(** C4. The teardown of the flow [k] removes the entry of [k] from the
    registry of the poller and changes nothing else: the other entries,
    the heap with every stream and its contexts, the shared stream table
    and the trace are as before. A later chunk of the same flow creates a
    new stream: a new heap cell, distinct from every stream allocated
    before, with the next identity of the allocator, which is greater
    than the identity of the stream that was registered under [k]; the
    earlier streams are still on the heap, unchanged. *)
Theorem teardown_removes_only_its_key (k : string) (chunk : tracerTlsChunk)
    (w : world) :
  wf w ->
  flowKey' chunk = k ->
  exists w1 w2,
    poll' [MsgCloseStream k] w = Some (false, w1) /\
    streams (poller w1) !! k = None /\
    (forall k', k' <> k -> streams (poller w1) !! k' = streams (poller w) !! k') /\
    heap w1 = heap w /\ streamsMap w1 = streamsMap w /\ trace w1 = trace w /\
    fdCache (poller w1) = fdCache (poller w) /\
    evictedCounter (poller w1) = evictedCounter (poller w) /\
    handleTlsChunk' chunk w1 = Some (None, w2) /\
    streams (poller w2) !! k = Some (length (heap w)) /\
    heap w2 = heap w ++ [fresh_stream' chunk w] /\
    st_id (fresh_stream' chunk w) = (streamId (streamsMap w) + 1)%Z /\
    trace w2 = trace w ++ creation_events' chunk w /\
    table (streamsMap w2) =
      <[(streamId (streamsMap w) + 1)%Z := length (heap w)]> (table (streamsMap w)) /\
    (forall s st, heap w !! s = Some st ->
       s <> length (heap w) /\ heap w2 !! s = Some st) /\
    (forall s st, streams (poller w) !! k = Some s -> heap w !! s = Some st ->
       (st_id st < st_id (fresh_stream' chunk w))%Z).
Proof.
  intros Hwf Hkey.
  assert (Hgone : streams (poller (without k w)) !! flowKey' chunk = None).
  { rewrite Hkey. cbn. apply lookup_delete_eq. }
  pose proof (handleTlsChunk_new chunk (without k w) Hgone) as Hrun.
  cbn zeta in Hrun.
  destruct (fresh_stream_ready chunk w) as (_ & _ & Hid).
  exists (without k w). eexists.
  split; [reflexivity|].
  split; [cbn; apply lookup_delete_eq|].
  split; [intros k' Hne; cbn; now apply lookup_delete_ne|].
  do 5 (split; [reflexivity|]).
  split; [exact Hrun|]. cbn [poller streams heap trace streamsMap table without].
  split; [rewrite Hkey; apply lookup_insert_eq|].
  split; [reflexivity|]. split; [exact Hid|].
  split; [reflexivity|]. split; [reflexivity|]. split.
  - intros s st Hs. pose proof (lookup_lt_Some _ _ _ Hs) as Hlt. split; [lia|].
    now rewrite lookup_app_l.
  - intros s st Hks Hs. rewrite Hid.
    destruct (Hwf _ _ Hks) as (st' & Hs' & _ & _ & Hle).
    assert (st' = st) by congruence. subst st'. lia.
Qed.

(** *** The bindings of a stream never change *)

Lemma same_binding_refl st : same_binding st st.
Proof. repeat split. Qed.

Lemma same_binding_trans st1 st2 st3 :
  same_binding st1 st2 -> same_binding st2 st3 -> same_binding st1 st3.
Proof.
  intros (H1 & H2 & H3 & H4) (H1' & H2' & H3' & H4').
  repeat split; congruence.
Qed.

Lemma deliver_same_binding side chunk st : same_binding st (deliver side chunk st).
Proof.
  unfold deliver, same_binding.
  destruct side, (client st), (server st); repeat split; reflexivity.
Qed.

Lemma handleTlsChunk_heap chunk w :
  wf w ->
  exists w',
    handleTlsChunk' chunk w = Some (None, w') /\ wf w' /\
    forall s st, heap w !! s = Some st ->
      exists st', heap w' !! s = Some st' /\ same_binding st st'.
Proof.
  intros Hwf.
  destruct (handleTlsChunk_spec chunk w Hwf) as (w' & ev & Hrun & Hwf' & _).
  exists w'. do 2 (split; [assumption|]). intros s0 st0 Hs0.
  destruct (streams (poller w) !! flowKey' chunk) as [s|] eqn:Hk.
  - destruct (Hwf _ _ Hk) as (st & Hs & Hc & Hr & _).
    rewrite (handleTlsChunk_old _ _ _ _ Hk Hs Hc Hr) in Hrun.
    injection Hrun as <-. cbn [heap].
    destruct (decide (s0 = s)) as [->|Hne].
    + exists (deliver (isRequest chunk) chunk st).
      rewrite list_lookup_insert_eq by (now apply lookup_lt_Some in Hs).
      assert (st0 = st) by congruence. subst st0.
      split; [reflexivity|apply deliver_same_binding].
    + exists st0. rewrite list_lookup_insert_ne by congruence.
      split; [assumption|apply same_binding_refl].
  - rewrite (handleTlsChunk_new _ _ Hk) in Hrun. cbn zeta in Hrun.
    injection Hrun as <-. cbn [heap]. exists st0.
    rewrite lookup_app_l by (now apply lookup_lt_Some in Hs0).
    split; [assumption|apply same_binding_refl].
Qed.

Lemma poll_heap msgs :
  forall w, wf w ->
  exists b w',
    poll' msgs w = Some (b, w') /\
    forall s st, heap w !! s = Some st ->
      exists st', heap w' !! s = Some st' /\ same_binding st st'.
Proof.
  induction msgs as [|m rest IH]; intros w Hwf.
  - exists false, w. split; [reflexivity|]. intros s st Hs. exists st.
    split; [assumption|apply same_binding_refl].
  - destruct m as [chunk| |k'].
    + destruct (handleTlsChunk_heap chunk w Hwf) as (w1 & Hrun & Hwf1 & Hheap1).
      destruct (IH w1 Hwf1) as (b & w' & Hpoll & Hheap).
      exists b, w'. rewrite (poll_chunk _ _ _ _ Hrun). split; [assumption|].
      intros s st Hs. destruct (Hheap1 s st Hs) as (st1 & Hs1 & Hb1).
      destruct (Hheap s st1 Hs1) as (st' & Hs' & Hb').
      exists st'. split; [assumption|]. exact (same_binding_trans _ _ _ Hb1 Hb').
    + exists true, w. split; [reflexivity|]. intros s st Hs. exists st.
      split; [assumption|apply same_binding_refl].
    + destruct (IH (without k' w) (wf_without k' w Hwf)) as (b & w' & Hpoll & Hheap).
      exists b, w'. rewrite poll_close. split; [assumption|]. exact Hheap.
Qed.

(** The identities given to the two contexts at creation stay theirs
    whatever the loop handles afterwards, teardowns included. *)
Lemma identities_stay_bound chunk msgs w :
  wf w ->
  streams (poller w) !! flowKey' chunk = None ->
  exists b w' st,
    poll' (MsgChunk chunk :: msgs) w = Some (b, w') /\
    heap w' !! length (heap w) = Some st /\
    st_key st = flowKey' chunk /\
    st_id st = (streamId (streamsMap w) + 1)%Z /\
    tcpID <$> client st = Some (buildTcpId IP_String (getAddressPair chunk) true) /\
    tcpID <$> server st = Some (buildTcpId IP_String (getAddressPair chunk) false).
Proof.
  intros Hwf Hk.
  destruct (handleTlsChunk_spec chunk w Hwf) as (w1 & ev & Hrun & Hwf1 & _).
  pose proof Hrun as Hrun'. rewrite (handleTlsChunk_new _ _ Hk) in Hrun'.
  cbn zeta in Hrun'. injection Hrun' as Hw1.
  destruct (poll_heap msgs w1 Hwf1) as (b & w' & Hpoll & Hheap).
  destruct (Hheap (length (heap w)) (fresh_stream' chunk w)) as (st & Hs & Hk' & Hi & Hc & Hr).
  { rewrite <- Hw1. cbn [heap]. apply lookup_snoc. }
  exists b, w', st. rewrite (poll_chunk _ _ _ _ Hrun).
  do 2 (split; [assumption|]).
  rewrite Hk', Hi, Hc, Hr. unfold fresh_stream, deliver.
  destruct (isRequest chunk); repeat split; reflexivity.
Qed.

(** *** Closing the handoff queue *)

Lemma split_at_closed (msgs : list pollMsg) :
  MsgChunksClosed ∈ msgs ->
  exists before after,
    msgs = before ++ MsgChunksClosed :: after /\ MsgChunksClosed ∉ before.
Proof.
  induction msgs as [|m rest IH]; intros Hin.
  - now apply elem_of_nil in Hin.
  - destruct m as [chunk| |k'].
    + apply elem_of_cons in Hin as [Hin|Hin]; [discriminate|].
      destruct (IH Hin) as (before & after & -> & Hnot).
      exists (MsgChunk chunk :: before), after. split; [reflexivity|].
      intros H. apply elem_of_cons in H as [H|H]; [discriminate|auto].
    + exists [], rest. split; [reflexivity|]. apply not_elem_of_nil.
    + apply elem_of_cons in Hin as [Hin|Hin]; [discriminate|].
      destruct (IH Hin) as (before & after & -> & Hnot).
      exists (MsgCloseStream k' :: before), after. split; [reflexivity|].
      intros H. apply elem_of_cons in H as [H|H]; [discriminate|auto].
Qed.

Lemma poll_until_closed (before : list pollMsg) :
  MsgChunksClosed ∉ before ->
  forall w, wf w ->
  exists w',
    poll' before w = Some (false, w') /\ wf w' /\
    forall after, poll' (before ++ MsgChunksClosed :: after) w = Some (true, w').
Proof.
  induction before as [|m rest IH]; intros Hnot w Hwf.
  - exists w. repeat split; auto.
  - assert (Hnot' : MsgChunksClosed ∉ rest).
    { intros H. apply Hnot. now right. }
    destruct m as [chunk| |k'].
    + destruct (handleTlsChunk_spec chunk w Hwf) as (w1 & ev & Hrun & Hwf1 & _).
      destruct (IH Hnot' w1 Hwf1) as (w' & Hpoll & Hwf' & Hafter).
      exists w'. split; [now rewrite (poll_chunk _ _ _ _ Hrun)|].
      split; [assumption|]. intros after.
      rewrite <- app_comm_cons, (poll_chunk _ _ _ _ Hrun). apply Hafter.
    + exfalso. apply Hnot. left.
    + destruct (IH Hnot' (without k' w) (wf_without k' w Hwf))
        as (w' & Hpoll & Hwf' & Hafter).
      exists w'. rewrite poll_close. split; [assumption|].
      split; [assumption|]. intros after.
      rewrite <- app_comm_cons, poll_close. apply Hafter.
Qed.

(** C5. Let the reads succeed on [pre] and then fail with [err]. The
    ingestion task closes the handoff queue and returns, reading nothing
    after the failure and pushing no further chunk; for the clean-closed
    sentinel its log is the log of the successful reads, for any other
    error it ends with the error line. Let [poll] receive what the queue
    carries, interleaved in any way with teardown keys: it returns at the
    closure, in the world the messages before the closure led to, and
    whatever is sent after that ([after], [later]) changes nothing. *)
Theorem reader_error_shuts_down (pre : list perfRecord) (err : readError)
    (rest : list readResult) (msgs later : list pollMsg) (w : world) :
  wf w ->
  List.filter from_handoff msgs =
    handoff (pollChunksPerfBuffer (map ReadOk pre ++ ReadErr err :: rest)) ->
  let r := pollChunksPerfBuffer (map ReadOk pre ++ ReadErr err :: rest) in
  let r0 := pollChunksPerfBuffer (map ReadOk pre) in
  chan_closed r = true /\ task_returned r = true /\
  task_returned r0 = false /\
  r = pollChunksPerfBuffer (map ReadOk pre ++ [ReadErr err]) /\
  sent r = sent r0 /\
  (isErrClosed err = true -> ilog r = ilog r0) /\
  (isErrClosed err = false ->
   ilog r = ilog r0 ++
     [EvLogError ("Error reading chunks from tls perf, aborting TLS! " ++ Error err)]) /\
  exists before after w',
    msgs = before ++ MsgChunksClosed :: after /\
    (MsgChunksClosed ∉ before) /\
    poll' before w = Some (false, w') /\
    poll' msgs w = Some (true, w') /\
    poll' (msgs ++ later) w = Some (true, w').
Proof.
  intros Hwf Hq r r0.
  destruct (readLoop_error pre err rest) as (Hc & Hr & Hs & Hl & Heq).
  destruct (readLoop_running pre) as (_ & Hr0).
  assert (Hclosed : chan_closed r = true) by exact Hc.
  split; [exact Hc|]. split; [exact Hr|]. split; [exact Hr0|].
  split; [unfold r, pollChunksPerfBuffer; now rewrite Heq|].
  split; [exact Hs|].
  split; [|split].
  - intros Hsentinel. unfold r, r0, pollChunksPerfBuffer. cbn [logged ilog].
    rewrite Hl. cbn [readLoop ilog]. rewrite Hsentinel. now rewrite app_nil_r.
  - intros Hother. unfold r, r0, pollChunksPerfBuffer. cbn [logged ilog].
    rewrite Hl. cbn [readLoop ilog]. now rewrite Hother.
  - assert (Hin : MsgChunksClosed ∈ msgs).
    { apply list_elem_of_In.
      apply (proj1 (List.filter_In from_handoff MsgChunksClosed msgs)).
      rewrite Hq. apply list_elem_of_In. unfold handoff. fold r. rewrite Hclosed.
      apply elem_of_app. right. left. }
    destruct (split_at_closed msgs Hin) as (before & after & -> & Hnot).
    destruct (poll_until_closed before Hnot w Hwf) as (w' & Hpoll & _ & Hafter).
    exists before, after, w'. repeat split; try assumption.
    + apply Hafter.
    + rewrite <- app_assoc, <- app_comm_cons. apply Hafter.
Qed.

End DemultiplexerProperties.

(** ** Concrete runs *)

Lemma wf_initial p m : streams p = ∅ -> wf (initial_world p m).
Proof. intros Hp k s Hk. cbn in Hk. rewrite Hp in Hk. discriminate. Qed.

Lemma wf_world0 : wf world0.
Proof. now apply wf_initial. Qed.

Lemma wf_world1 : wf world1.
Proof.
  destruct (handleTlsChunk_spec ipv4_String sample_getAddressPair sample_isRequest
              chunkA world0 wf_world0) as (w' & ev & Hrun & Hwf & _).
  unfold world1. now rewrite Hrun.
Qed.

(** The keys of the scenario. *)
Example flowKey_chunkA :
  flowKey ipv4_String sample_getAddressPair sample_isRequest chunkA = keyA.
Proof. reflexivity. Qed.

Example decode_rawA : binary_Read rawA = Ok decodedA.
Proof. vm_compute. reflexivity. Qed.

Example decode_short : binary_Read (take 100 rawA) = Err "unexpected EOF".
Proof. vm_compute. reflexivity. Qed.

(** At the largest [int] the counter wraps around to the smallest. *)
Example eviction_counter_wraps :
  evictedCounter (poller (evicted (world_evicted max_int))) = min_int.
Proof. vm_compute. reflexivity. Qed.

(** Two chunks of one flow: one creation, then a plain dispatch. *)
Example trace_two_chunks :
  (fun r => trace r.2) <$>
    poll ipv4_String sample_getAddressPair sample_isRequest
         [MsgChunk chunkA; MsgChunk chunkA] world0 =
  Some [EvNewTlsStream keyA 0; EvNextId 1; EvStore 1 0;
        EvNewTlsReader {| SrcIP := "10.0.0.1"; DstIP := "10.0.0.2";
                          SrcPort := "5000"; DstPort := "443" |} 0 true;
        EvNewTlsReader {| SrcIP := "10.0.0.2"; DstIP := "10.0.0.1";
                          SrcPort := "443"; DstPort := "5000" |} 0 false;
        EvNewChunk 0 true chunkA; EvNewChunk 0 true chunkA].
Proof. vm_compute. reflexivity. Qed.

(** After a teardown the next chunk of the flow gets the next heap cell and
    the next identity. *)
Example registry_after_teardown :
  (fun r => (streams (poller r.2) !! keyA, table (streamsMap r.2) !! 2%Z,
             length (heap r.2))) <$>
    poll ipv4_String sample_getAddressPair sample_isRequest
         [MsgChunk chunkA; MsgCloseStream keyA; MsgChunk chunkA] world0 =
  Some (Some 1%nat, Some 1%nat, 2%nat).
Proof. vm_compute. reflexivity. Qed.

(** A good record, a lossy record, a failing read: one chunk is pushed, the
    queue is closed, and what is read afterwards is ignored. *)
Example ingestion_run :
  pollChunksPerfBuffer [ReadOk recordA; ReadOk recordLost; ReadErr errOther; ReadOk recordA] =
  {| sent := [decodedA]; chan_closed := true; task_returned := true;
     ilog := [EvLogInfo "Start polling for tls events";
              EvLogInfo "Buffer is full, dropped 7 chunks";
              EvLogError "Error reading chunks from tls perf, aborting TLS! bad file descriptor"] |}.
Proof. vm_compute. reflexivity. Qed.

(** Three keys into a cache of two: the first is evicted. *)
Example cache_of_two :
  (fun r => (r.1, evictList (fdCache (poller r.2)), evictedCounter (poller r.2))) <$>
    fdCache_AddAll three_entries world_small =
  Some (1%nat, [("fd5", pairA); ("fd4", reverse pairA)], 1%Z).
Proof. vm_compute. reflexivity. Qed.

Lemma one_stream_per_flow_witness :
  exists w' added s,
    poll ipv4_String sample_getAddressPair sample_isRequest msgsA world0 = Some (false, w') /\
    trace w' = trace world0 ++ added /\
    count (is_NewTlsStream_for keyA) added = 1%nat /\
    streams (poller w') !! keyA = Some s /\
    routed_to ipv4_String sample_getAddressPair sample_isRequest keyA s added /\
    List.filter
      (fun d => bool_decide
                  (flowKey ipv4_String sample_getAddressPair sample_isRequest d.2 = keyA))
      (dispatched added) =
      [(s, true, chunkA); (s, true, chunkA); (s, true, chunkA)] /\
    EvNewChunk s true chunkA ∈ added.
Proof.
  destruct (one_stream_per_flow ipv4_String sample_getAddressPair sample_isRequest
              keyA msgsA world0 wf_world0 eq_refl eq_refl)
    as (w' & added & s & Hpoll & Htr & Hc & _ & Hs & _ & Hrt & Hd & Hin & _).
  exists w', added, s. repeat split; try assumption.
  apply (Hin chunkA); [left | reflexivity].
Defined.

Lemma identities_bound_at_creation_witness :
  exists w' s st rc rs,
    handleTlsChunk ipv4_String sample_getAddressPair sample_isRequest chunkB world0 =
      Some (None, w') /\
    heap w' !! s = Some st /\ client st = Some rc /\ server st = Some rs /\
    tcpID rc = {| SrcIP := "10.0.0.1"; DstIP := "10.0.0.2";
                  SrcPort := "5000"; DstPort := "443" |} /\
    tcpID rs = {| SrcIP := "10.0.0.2"; DstIP := "10.0.0.1";
                  SrcPort := "443"; DstPort := "5000" |}.
Proof.
  destruct (identities_bound_at_creation ipv4_String sample_getAddressPair
              sample_isRequest chunkB world0 (lookup_empty _))
    as (w' & s & st & rc & rs & Hrun & _ & Hs & Hc & Hr & _ & _ & _ & _ & _ & _ & _ & _ & _ & _ & Hscn).
  destruct (Hscn eq_refl eq_refl eq_refl eq_refl) as [Hrc Hrs].
  exists w', s, st, rc, rs. auto 10.
Defined.

(** C3, as stated, fails. The request chunk [chunkA] and the response
    chunk [chunkR] of one exchange map to the one FlowKey [keyA], and either
    order of arrival creates one stream for it; but the identities bound to
    its contexts are those of the pair of the chunk that arrived first.
    When the response arrives first the client context gets 10.0.0.2:443 >
    10.0.0.1:5000 and the server context 10.0.0.1:5000 > 10.0.0.2:443: the
    two are exchanged. *)
Lemma identities_depend_on_first_chunk :
  sample_isRequest chunkA = true /\ sample_isRequest chunkR = false /\
  flowKey ipv4_String sample_getAddressPair sample_isRequest chunkA = keyA /\
  flowKey ipv4_String sample_getAddressPair sample_isRequest chunkR = keyA /\
  (fun r => (length (heap r.2), bound_identities keyA r.2)) <$>
    poll ipv4_String sample_getAddressPair sample_isRequest
         [MsgChunk chunkA; MsgChunk chunkR] world0 =
    Some (1%nat, Some (idAB, idBA)) /\
  (fun r => (length (heap r.2), bound_identities keyA r.2)) <$>
    poll ipv4_String sample_getAddressPair sample_isRequest
         [MsgChunk chunkR; MsgChunk chunkA] world0 =
    Some (1%nat, Some (idBA, idAB)) /\
  idAB <> idBA.
Proof. vm_compute. repeat split. discriminate. Qed.

Lemma teardown_removes_only_its_key_witness :
  exists w1 w2,
    poll ipv4_String sample_getAddressPair sample_isRequest [MsgCloseStream keyA] world1 =
      Some (false, w1) /\
    streams (poller w1) !! keyA = None /\
    heap w1 = heap world1 /\ streamsMap w1 = streamsMap world1 /\
    handleTlsChunk ipv4_String sample_getAddressPair sample_isRequest chunkA w1 =
      Some (None, w2) /\
    streams (poller w2) !! keyA = Some (length (heap world1)).
Proof.
  destruct (teardown_removes_only_its_key ipv4_String sample_getAddressPair
              sample_isRequest keyA chunkA world1 wf_world1 eq_refl)
    as (w1 & w2 & Hpoll & Hgone & _ & Hheap & Hmap & _ & _ & _ & Hrun & Hnew & _).
  exists w1, w2. auto 10.
Defined.

Lemma reader_error_shuts_down_witness :
  exists before after w',
    [MsgCloseStream keyB; MsgChunk decodedA; MsgChunksClosed; MsgCloseStream keyA] =
      before ++ MsgChunksClosed :: after /\
    poll ipv4_String sample_getAddressPair sample_isRequest
         ([MsgCloseStream keyB; MsgChunk decodedA; MsgChunksClosed; MsgCloseStream keyA]
          ++ [MsgChunk chunkB]) world0 = Some (true, w') /\
    poll ipv4_String sample_getAddressPair sample_isRequest before world0 = Some (false, w').
Proof.
  destruct (reader_error_shuts_down ipv4_String sample_getAddressPair sample_isRequest
              [recordA; recordLost] errOther [ReadOk recordA]
              [MsgCloseStream keyB; MsgChunk decodedA; MsgChunksClosed; MsgCloseStream keyA]
              [MsgChunk chunkB] world0 wf_world0)
    as (_ & _ & _ & _ & _ & _ & _ & before & after & w' & Hsplit & _ & Hb & _ & Hl).
  - vm_compute. reflexivity.
  - exists before, after, w'. auto.
Defined.

Lemma lost_samples_are_skipped_witness :
  ilog (pollChunksPerfBuffer (map ReadOk [recordA] ++ ReadOk recordLost :: [ReadOk recordA])) =
    [EvLogInfo "Start polling for tls events";
     EvLogInfo "Buffer is full, dropped 7 chunks"] /\
  sent (pollChunksPerfBuffer ([ReadOk recordA] ++ ReadOk recordLost :: [ReadOk recordA])) =
    sent (pollChunksPerfBuffer ([ReadOk recordA] ++ [ReadOk recordA])) /\
  task_returned
    (pollChunksPerfBuffer ([ReadOk recordA] ++ ReadOk recordLost :: [ReadOk recordA])) =
    task_returned (pollChunksPerfBuffer ([ReadOk recordA] ++ [ReadOk recordA])).
Proof.
  destruct (lost_samples_are_skipped [ReadOk recordA] [ReadOk recordA] recordLost)
    as (_ & _ & Hlog & _ & _ & Hs & _ & Hr & _).
  - discriminate.
  - split; [|split; assumption]. rewrite (Hlog [recordA]). vm_compute. reflexivity.
Defined.

Lemma eviction_counter_and_log_witness :
  exists w',
    fdCacheEvictCallback "fd3" pairA (world_evicted 999999) = Some (tt, w') /\
    evictedCounter (poller w') = 1000000%Z /\
    trace w' = [EvLogInfo "Tls fdCache evicted 1000000 items"].
Proof.
  destruct (eviction_counter_and_log "fd3" pairA (world_evicted 999999))
    as (w' & Hrun & Hn & _ & _ & _ & _ & _ & _ & Hlog & _).
  - vm_compute. split; [discriminate | reflexivity].
  - exists w'. split; [assumption|]. split; [assumption|]. now apply Hlog.
Defined.

Lemma cache_capacity_and_eviction_witness :
  exists kv0 kvs' w',
    three_entries = kv0 :: kvs' /\
    fdCache_AddAll three_entries world_small = Some (1%nat, w') /\
    evictedCounter (poller w') = 1%Z /\
    evictList (fdCache (poller w')) = rev kvs'.
Proof.
  destruct (cache_capacity_and_eviction 2 three_entries world_small)
    as (_ & _ & _ & Hover & _).
  - reflexivity.
  - reflexivity.
  - apply (bool_decide_unpack _). vm_compute. exact I.
  - vm_compute. split; [discriminate | reflexivity].
  - destruct (Hover eq_refl) as (kv0 & kvs' & w' & Hk & Hrun & Hn & Hl & _).
    exists kv0, kvs', w'. auto.
Defined.

Lemma handleTlsChunk_returns_nil_witness :
  exists b w',
    poll ipv4_String sample_getAddressPair sample_isRequest msgsA world0 = Some (b, w') /\
    count is_LogError (trace w') = count is_LogError (trace world0).
Proof.
  apply (handleTlsChunk_returns_nil ipv4_String sample_getAddressPair sample_isRequest
           chunkA msgsA world0 wf_world0).
Defined.

(** * Further properties *)

(** ** The binary record decoder *)

Lemma byte_of_to_N b : byte_of (Byte.to_N b) = b.
Proof. unfold byte_of. now rewrite Byte.of_to_N. Qed.

Lemma to_N_byte_of n : (n < 256)%N -> Byte.to_N (byte_of n) = n.
Proof.
  intros H. unfold byte_of. destruct (Byte.of_N n) as [b|] eqn:Hb.
  - now apply Byte.to_of_N.
  - apply Byte.of_N_None_iff in Hb. lia.
Qed.

Lemma length_le_bytes n v : length (le_bytes n v) = n.
Proof. revert v. induction n as [|n IH]; intros v; cbn; [reflexivity|now rewrite IH]. Qed.

Lemma le_uint_bound bs : (le_uint bs < 256 ^ N.of_nat (length bs))%N.
Proof.
  induction bs as [|b bs IH]; [cbn; lia|].
  cbn [le_uint foldr length]. fold (le_uint bs).
  rewrite Nat2N.inj_succ, N.pow_succ_r'. pose proof (Byte.to_N_bounded b). lia.
Qed.

Lemma le_bytes_le_uint bs : le_bytes (length bs) (le_uint bs) = bs.
Proof.
  induction bs as [|b bs IH]; [reflexivity|].
  cbn [le_uint foldr length le_bytes]. fold (le_uint bs).
  pose proof (Byte.to_N_bounded b) as Hb.
  replace ((Byte.to_N b + 256 * le_uint bs) mod 256)%N with (Byte.to_N b).
  2:{ apply (N.mod_unique _ 256 (le_uint bs)); lia. }
  replace ((Byte.to_N b + 256 * le_uint bs) / 256)%N with (le_uint bs).
  2:{ apply (N.div_unique _ 256 _ (Byte.to_N b)); lia. }
  now rewrite byte_of_to_N, IH.
Qed.

Lemma le_uint_le_bytes n v : (v < 256 ^ N.of_nat n)%N -> le_uint (le_bytes n v) = v.
Proof.
  revert v. induction n as [|n IH]; intros v Hv.
  - cbn in *. lia.
  - cbn [le_bytes le_uint foldr]. fold (le_uint (le_bytes n (v / 256))).
    rewrite Nat2N.inj_succ, N.pow_succ_r' in Hv.
    rewrite IH by (apply N.Div0.div_lt_upper_bound; lia).
    rewrite to_N_byte_of by (apply N.mod_lt; lia).
    pose proof (N.div_mod v 256 ltac:(lia)). lia.
Qed.

Lemma field_split (raw : list byte) off len :
  drop off raw = field raw off len ++ drop (off + len) raw.
Proof. unfold field. now rewrite <- drop_drop, take_drop. Qed.

Lemma length_field (raw : list byte) off len :
  (off + len <= length raw)%nat -> length (field raw off len) = len.
Proof. intros H. unfold field. rewrite length_take, length_drop. lia. Qed.

Lemma fields_cover (raw : list byte) :
  (4136 <= length raw)%nat ->
  take 4136 raw =
    field raw 0 4 ++ field raw 4 4 ++ field raw 8 4 ++ field raw 12 4 ++ field raw 16 4 ++ field raw 20 4 ++ field raw 24 4 ++ field raw 28 4 ++ field raw 32 4 ++ field raw 36 2 ++ field raw 38 2 ++ field raw 40 4096.
Proof.
  intros Hlen.
  assert (H : drop 0 raw = raw) by reflexivity.
  rewrite (field_split raw 0 4) in H. cbn [Nat.add] in H.
  rewrite (field_split raw 4 4) in H. cbn [Nat.add] in H.
  rewrite (field_split raw 8 4) in H. cbn [Nat.add] in H.
  rewrite (field_split raw 12 4) in H. cbn [Nat.add] in H.
  rewrite (field_split raw 16 4) in H. cbn [Nat.add] in H.
  rewrite (field_split raw 20 4) in H. cbn [Nat.add] in H.
  rewrite (field_split raw 24 4) in H. cbn [Nat.add] in H.
  rewrite (field_split raw 28 4) in H. cbn [Nat.add] in H.
  rewrite (field_split raw 32 4) in H. cbn [Nat.add] in H.
  rewrite (field_split raw 36 2) in H. cbn [Nat.add] in H.
  rewrite (field_split raw 38 2) in H. cbn [Nat.add] in H.
  rewrite (field_split raw 40 4096) in H. cbn [Nat.add] in H.
  rewrite <- H at 1. rewrite !app_assoc. apply take_app_length'.
  rewrite !length_app, !length_field by lia. reflexivity.
Qed.

Lemma le_bytes_field (raw : list byte) off len :
  (off + len <= length raw)%nat ->
  le_bytes len (le_uint (field raw off len)) = field raw off len.
Proof.
  intros H. transitivity (le_bytes (length (field raw off len)) (le_uint (field raw off len))).
  - now rewrite length_field.
  - apply le_bytes_le_uint.
Qed.

Lemma field_uint32 (raw : list byte) off :
  (off + 4 <= length raw)%nat -> (le_uint (field raw off 4) <= uint32_max)%N.
Proof.
  intros H. pose proof (le_uint_bound (field raw off 4)) as Hb.
  rewrite length_field in Hb by assumption.
  change (256 ^ N.of_nat 4)%N with 4294967296%N in Hb. unfold uint32_max. lia.
Qed.

Lemma field_uint16 (raw : list byte) off :
  (off + 2 <= length raw)%nat -> (le_uint (field raw off 2) <= uint16_max)%N.
Proof.
  intros H. pose proof (le_uint_bound (field raw off 2)) as Hb.
  rewrite length_field in Hb by assumption.
  change (256 ^ N.of_nat 2)%N with 65536%N in Hb. unfold uint16_max. lia.
Qed.

Lemma binary_Read_long (raw : list byte) :
  (4136 <= length raw)%nat ->
  binary_Read raw =
    Ok {| Pid := le_uint (field raw 0 4);
          Tgid := le_uint (field raw 4 4);
          Len := le_uint (field raw 8 4);
          Start := le_uint (field raw 12 4);
          Recorded := le_uint (field raw 16 4);
          Fd := le_uint (field raw 20 4);
          Flags := le_uint (field raw 24 4);
          AddressInfo :=
            {| Saddr := le_uint (field raw 28 4);
               Daddr := le_uint (field raw 32 4);
               Sport := le_uint (field raw 36 2);
               Dport := le_uint (field raw 38 2) |};
          Data := field raw 40 4096 |}.
Proof.
  intros H. unfold binary_Read, chunkSize.
  destruct (Nat.ltb_spec (length raw) 4136); [lia|reflexivity].
Qed.

Lemma binary_Read_short (raw : list byte) :
  (length raw < 4136)%nat ->
  binary_Read raw = Err (match raw with [] => "EOF" | _ => "unexpected EOF" end).
Proof.
  intros H. unfold binary_Read, chunkSize.
  destruct (Nat.ltb_spec (length raw) 4136); [reflexivity|lia].
Qed.

(** X1. A sample that decodes has at least 4136 bytes; the chunk it
    decodes to has every field within its Go type and a payload of 4096
    bytes, and written back in the same layout it is the first 4136 bytes
    of the sample: no byte of the record is dropped or read twice, and two
    samples that decode to one chunk agree on their first 4136 bytes. *)
Theorem decode_loses_nothing (raw : list byte) (c : tracerTlsChunk) :
  binary_Read raw = Ok c ->
  (4136 <= length raw)%nat /\ chunk_ok c /\ wire c = take 4136 raw /\
  forall raw', binary_Read raw' = Ok c -> take 4136 raw' = take 4136 raw.
Proof.
  assert (Hone : forall r c', binary_Read r = Ok c' ->
            (4136 <= length r)%nat /\ chunk_ok c' /\ wire c' = take 4136 r).
  { intros r c' Hr.
    destruct (Nat.lt_ge_cases (length r) 4136) as [Hs|Hl].
    { rewrite (binary_Read_short r Hs) in Hr. discriminate. }
    rewrite (binary_Read_long r Hl) in Hr. injection Hr as <-.
    split; [assumption|]. split.
    - unfold chunk_ok. cbn [Pid Tgid Len Start Recorded Fd Flags AddressInfo
                            Saddr Daddr Sport Dport Data].
      repeat split; try (apply field_uint32; lia); try (apply field_uint16; lia).
      apply length_field. lia.
    - unfold wire. cbn [Pid Tgid Len Start Recorded Fd Flags AddressInfo
                        Saddr Daddr Sport Dport Data].
      rewrite !le_bytes_field by lia. symmetry. now apply fields_cover. }
  intros Hraw. destruct (Hone raw c Hraw) as (Hl & Hok & Hw).
  repeat split; try assumption; try apply Hok.
  intros raw' Hraw'. destruct (Hone raw' c Hraw') as (_ & _ & Hw'). congruence.
Qed.

Lemma length_wire c : length (Data c) = 4096%nat -> length (wire c) = 4136%nat.
Proof.
  intros H. unfold wire. rewrite !length_app, !length_le_bytes, H. reflexivity.
Qed.

(** X2. Every chunk whose fields fit their Go types is what [binary.Read]
    decodes from its wire form, whatever bytes follow the record in the
    sample. *)
Theorem decode_wire (c : tracerTlsChunk) (extra : list byte) :
  chunk_ok c -> binary_Read (wire c ++ extra) = Ok c.
Proof.
  intros ((Hpid & Htgid & Hlen & Hstart & Hrec & Hfd & Hfl & Hsa & Hda & Hsp & Hdp) & Hdata).
  pose proof (length_wire c Hdata) as Hw.
  assert (Hl : (4136 <= length (wire c ++ extra))%nat) by (rewrite length_app; lia).
  pose proof (fields_cover _ Hl) as Hcov.
  rewrite (take_app_length' _ _ _ (eq_sym Hw)) in Hcov.
  rewrite (binary_Read_long _ Hl).
  set (raw := wire c ++ extra) in *.
  unfold wire in Hcov.
  repeat (apply app_inj_1 in Hcov as [? Hcov];
          [|rewrite length_le_bytes, length_field by lia; reflexivity]).
  unfold uint32_max, uint16_max in *.
  destruct c as [pid tgid len start rec fd fl [sa da sp dp] data].
  cbn [Pid Tgid Len Start Recorded Fd Flags AddressInfo Saddr Daddr Sport Dport Data] in *.
  repeat match goal with H : le_bytes _ _ = field _ _ _ |- _ => rewrite <- H; clear H end.
  rewrite <- Hcov.
  rewrite !le_uint_le_bytes; [reflexivity|..];
    first [change (256 ^ N.of_nat 4)%N with 4294967296%N
          |change (256 ^ N.of_nat 2)%N with 65536%N]; lia.
Qed.

(** ** The text of a FlowKey *)

Lemma append_nil_l (s : string) : String.append EmptyString s = s.
Proof. reflexivity. Qed.

Lemma append_cons a (x y : string) :
  String.append (String a x) y = String a (String.append x y).
Proof. reflexivity. Qed.

Lemma append_assoc (x y z : string) :
  String.append (String.append x y) z = String.append x (String.append y z).
Proof.
  induction x as [|a x IH]; [reflexivity|]. rewrite !append_cons. now rewrite IH.
Qed.

Lemma has_char_append c x y :
  has_char c (String.append x y) = has_char c x || has_char c y.
Proof.
  induction x as [|a x IH]; [reflexivity|].
  rewrite append_cons. cbn [has_char]. now rewrite IH, orb_assoc.
Qed.

(** Two texts cut at the first occurrence of a character. *)
Lemma split_at_first c x x' y y' :
  has_char c x = false -> has_char c x' = false ->
  String.append x (String c y) = String.append x' (String c y') ->
  x = x' /\ y = y'.
Proof.
  revert x'. induction x as [|a x IH]; intros [|a' x'] Hx Hx' Heq;
    rewrite ?append_nil_l, ?append_cons in Heq; cbn [has_char] in Hx, Hx'.
  - injection Heq as ->. auto.
  - injection Heq as <- _.
    rewrite bool_decide_eq_true_2 in Hx' by reflexivity. discriminate.
  - injection Heq as -> _.
    rewrite bool_decide_eq_true_2 in Hx by reflexivity. discriminate.
  - injection Heq as -> Heq.
    apply orb_false_iff in Hx as [_ Hx]. apply orb_false_iff in Hx' as [_ Hx'].
    destruct (IH x' Hx Hx' Heq) as [-> ->]. auto.
Qed.

(** Two texts cut at the last occurrence of a character. *)
Lemma split_at_last c x x' y y' :
  has_char c y = false -> has_char c y' = false ->
  String.append x (String c y) = String.append x' (String c y') ->
  x = x' /\ y = y'.
Proof.
  intros Hy Hy'. revert x'. induction x as [|a x IH]; intros [|a' x'] Heq;
    rewrite ?append_nil_l, ?append_cons in Heq.
  - injection Heq as ->. auto.
  - injection Heq as _ ->.
    rewrite has_char_append in Hy. cbn [has_char] in Hy.
    rewrite bool_decide_eq_true_2, orb_true_r in Hy by reflexivity. discriminate.
  - injection Heq as _ <-.
    rewrite has_char_append in Hy'. cbn [has_char] in Hy'.
    rewrite bool_decide_eq_true_2, orb_true_r in Hy' by reflexivity. discriminate.
  - injection Heq as -> Heq.
    destruct (IH x' Heq) as [-> ->]. auto.
Qed.

Lemma is_digit_pretty_N_char x : is_digit (pretty_N_char x) = true.
Proof. unfold pretty_N_char. repeat case_match; reflexivity. Qed.

Lemma all_digits_pretty_N_go x :
  forall s, all_digits s = true -> all_digits (pretty_N_go x s) = true.
Proof.
  induction (N.lt_wf_0 x) as [x _ IH]. intros s Hs.
  destruct (N.eq_dec x 0%N) as [->|Hx]; [now rewrite pretty_N_go_0|].
  rewrite pretty_N_go_step by lia. apply IH.
  - apply N.div_lt; lia.
  - cbn [all_digits]. now rewrite is_digit_pretty_N_char.
Qed.

Lemma all_digits_FormatUint n : all_digits (FormatUint n) = true.
Proof.
  unfold FormatUint, pretty, pretty_N. case_decide; [reflexivity|].
  now apply all_digits_pretty_N_go.
Qed.

Lemma all_digits_no_char c s :
  is_digit c = false -> all_digits s = true -> has_char c s = false.
Proof.
  intros Hc. induction s as [|a s IH]; [reflexivity|]. cbn [all_digits has_char].
  intros H. apply andb_true_iff in H as [Ha Hs]. rewrite (IH Hs), orb_false_r.
  apply bool_decide_eq_false. intros ->. congruence.
Qed.

Section KeyText.

Variable IP_String : IP -> string.

Lemma sprintf_key_inj ip1 p1 ip2 p2 ip1' p1' ip2' p2' :
  has_char gt_char (IP_String ip1) = false -> has_char gt_char (IP_String ip1') = false ->
  sprintf_key IP_String ip1 p1 ip2 p2 = sprintf_key IP_String ip1' p1' ip2' p2' ->
  IP_String ip1 = IP_String ip1' /\ p1 = p1' /\
  IP_String ip2 = IP_String ip2' /\ p2 = p2'.
Proof.
  intros H1 H1' Heq. unfold sprintf_key in Heq.
  pose proof (fun n => all_digits_no_char colon_char (FormatUint n) eq_refl (all_digits_FormatUint n))
    as Hcolon.
  pose proof (fun n => all_digits_no_char gt_char (FormatUint n) eq_refl (all_digits_FormatUint n))
    as Hgt.
  change (String.append ":" ?s) with (String colon_char s) in Heq.
  change (String.append ">" ?s) with (String gt_char s) in Heq.
  assert (Hre : forall A P R,
    String.append A (String colon_char (String.append P (String gt_char R))) =
    String.append (String.append A (String colon_char P)) (String gt_char R)).
  { intros A P R. rewrite append_assoc. reflexivity. }
  rewrite !Hre in Heq.
  apply split_at_first in Heq as [Hleft Hright].
  - apply split_at_last in Hleft as [Ha Hp]; [|apply Hcolon..].
    apply split_at_last in Hright as [Hb Hq]; [|apply Hcolon..].
    apply (inj pretty) in Hp. apply (inj pretty) in Hq. auto.
  - rewrite has_char_append. cbn [has_char]. rewrite H1, Hgt. reflexivity.
  - rewrite has_char_append. cbn [has_char]. rewrite H1', Hgt. reflexivity.
Qed.

(** X15. A FlowKey tells the flow: if two address pairs, each in its
    direction, print the same key, then they print the same addresses and
    have the same ports once oriented (as they are for a request, reversed
    for a response), and so get the same pair of connection identities. It
    holds when the first address printed contains no [>], as for every
    IPv4 or IPv6 address. *)
Theorem flow_key_tells_the_flow (a b : addressPair) (da db : bool) :
  has_char gt_char (IP_String (srcIp (oriented a da))) = false ->
  has_char gt_char (IP_String (srcIp (oriented b db))) = false ->
  buildTlsKey IP_String a da = buildTlsKey IP_String b db ->
  IP_String (srcIp (oriented a da)) = IP_String (srcIp (oriented b db)) /\
  srcPort (oriented a da) = srcPort (oriented b db) /\
  IP_String (dstIp (oriented a da)) = IP_String (dstIp (oriented b db)) /\
  dstPort (oriented a da) = dstPort (oriented b db) /\
  forall d, buildTcpId IP_String (oriented a da) d = buildTcpId IP_String (oriented b db) d.
Proof.
  intros Ha Hb Heq.
  assert (Hkey : forall x d, buildTlsKey IP_String x d =
                             sprintf_key IP_String (srcIp (oriented x d)) (srcPort (oriented x d))
                                         (dstIp (oriented x d)) (dstPort (oriented x d))).
  { intros x []; reflexivity. }
  rewrite !Hkey in Heq.
  destruct (sprintf_key_inj _ _ _ _ _ _ _ _ Ha Hb Heq) as (H1 & H2 & H3 & H4).
  do 4 (split; [assumption|]).
  intros []; unfold buildTcpId; now rewrite H1, H2, H3, H4.
Qed.

End KeyText.

(** ** The eviction counter over a run *)

(** X19. From a new poller, as long as the counter does not overflow, after
    [n] evictions the counter is [n] and exactly one line was logged for
    every full 1,000,000 evictions: [n / 1000000] lines. *)
Theorem evictions_from_new_poller (procfs : string) (m : TcpStreamMap)
    (kvs : list (string * addressPair)) :
  (Z.of_nat (length kvs) <= max_int)%Z ->
  exists p w',
    newTlsPoller procfs = Ok p /\
    evict_each kvs (initial_world p m) = Some (tt, w') /\
    evictedCounter (poller w') = Z.of_nat (length kvs) /\
    Z.of_nat (count is_LogInfo (trace w')) = (Z.of_nat (length kvs) / 1000000)%Z.
Proof.
  intros Hn. eexists. 
  destruct (evict_each_counts kvs (initial_world
              {| streams := ∅; procfs := procfs;
                 fdCache := {| lru_size := 12500; evictList := [] |};
                 evictedCounter := 0 |} m)) as (w' & Hrun & Hc & Hl).
  - cbn. unfold min_int, int_bits. lia.
  - cbn. lia.
  - exists w'. split; [apply newTlsPoller_eq|]. split; [exact Hrun|].
    cbn [initial_world poller evictedCounter trace] in Hc, Hl.
    split; [lia|]. rewrite Hl, Hc. cbn. rewrite Z.sub_0_r. reflexivity.
Qed.

(** ** The ingestion task, as a whole *)

Lemma readLoop_sent reads :
  sent (readLoop reads) = omap pushed_chunk (before_error reads).
Proof.
  induction reads as [|[record|err] rest IH]; [reflexivity| |reflexivity].
  cbn [readLoop before_error omap list_omap]. unfold pushed_chunk.
  destruct (LostSamples record =? 0)%N; cbn [negb].
  - destruct (binary_Read (RawSample record)); cbn [pushed logged sent]; now rewrite IH.
  - cbn [logged sent]. exact IH.
Qed.

Lemma readLoop_ilog reads :
  ilog (readLoop reads) =
    omap record_line (before_error reads) ++ from_option error_line [] (first_error reads).
Proof.
  induction reads as [|[record|err] rest IH]; [reflexivity| |reflexivity].
  cbn [readLoop before_error first_error omap list_omap]. unfold record_line.
  destruct (LostSamples record =? 0)%N; cbn [negb].
  - destruct (binary_Read (RawSample record)); cbn [pushed logged ilog]; now rewrite IH.
  - cbn [logged ilog]. now rewrite IH.
Qed.

Lemma readLoop_closed reads :
  chan_closed (readLoop reads) = bool_decide (is_Some (first_error reads)) /\
  task_returned (readLoop reads) = chan_closed (readLoop reads).
Proof.
  induction reads as [|[record|err] rest [IH1 IH2]]; [split; reflexivity| |split; reflexivity].
  cbn [readLoop first_error].
  destruct (negb (LostSamples record =? 0)%N); [exact (conj IH1 IH2)|].
  destruct (binary_Read (RawSample record)); exact (conj IH1 IH2).
Qed.

(** X4. The handoff queue carries exactly the decodings of the records
    read before the first failed read that report no lost samples and
    decode, in the order they were read: nothing is pushed twice, out of
    order, or after a failed read. *)
Theorem ingestion_pushes_good_records (reads : list readResult) :
  sent (pollChunksPerfBuffer reads) = omap pushed_chunk (before_error reads).
Proof. unfold pollChunksPerfBuffer. cbn [logged sent]. apply readLoop_sent. Qed.

(** X5. The log of the ingestion task is the start line, then one line for
    each record before the first failed read that was not pushed (the count
    of lost samples, or the decode error), then the error line of the
    failed read unless the reader was closed. *)
Theorem ingestion_log (reads : list readResult) :
  ilog (pollChunksPerfBuffer reads) =
    EvLogInfo "Start polling for tls events" ::
    omap record_line (before_error reads) ++
    from_option error_line [] (first_error reads).
Proof. unfold pollChunksPerfBuffer. cbn [logged ilog]. now rewrite readLoop_ilog. Qed.

(** X6. The task closes the handoff queue exactly when it returns, and it
    does so exactly when some read failed; once it has returned, further
    reads change nothing of what it did. *)
Theorem ingestion_closes_iff_read_fails (reads more : list readResult) :
  task_returned (pollChunksPerfBuffer reads) = chan_closed (pollChunksPerfBuffer reads) /\
  (chan_closed (pollChunksPerfBuffer reads) = true <->
   exists err, ReadErr err ∈ reads) /\
  (task_returned (pollChunksPerfBuffer reads) = true ->
   pollChunksPerfBuffer (reads ++ more) = pollChunksPerfBuffer reads).
Proof.
  unfold pollChunksPerfBuffer. cbn [logged chan_closed task_returned].
  destruct (readLoop_closed reads) as [Hc Hr]. split; [exact Hr|]. split.
  - rewrite Hc. rewrite bool_decide_eq_true. clear. induction reads as [|[record|err] rest IH].
    + split; [intros [e He]; discriminate | intros [e He]; now apply elem_of_nil in He].
    + cbn [first_error]. rewrite IH. split; intros [e He]; exists e.
      * now right.
      * apply elem_of_cons in He as [He|He]; [discriminate|assumption].
    + cbn [first_error]. split; [intros _; exists err; left | intros _; eauto].
  - rewrite Hr, Hc, bool_decide_eq_true. clear. intros Herr. f_equal.
    induction reads as [|[record|err] rest IH].
    + destruct Herr as [e He]. discriminate.
    + cbn [app readLoop]. now rewrite (IH Herr).
    + reflexivity.
Qed.

(** X7. A record that does not decode is not fatal: the loop logs the
    decode error and goes on. The log of the loop from that read on is the
    line "Error parsing chunk <error>" and then the log of the loop on the
    reads that follow; after successful reads the log of the task is its
    log on those reads, then that line, then the lines of the reads that
    follow. Wherever the record occurs among the reads, the chunks pushed,
    the state of the queue and whether the task has returned are what they
    are without that record. *)
Theorem undecodable_record_is_skipped (pre rest : list readResult) (record : perfRecord)
    (err : string) :
  LostSamples record = 0%N ->
  binary_Read (RawSample record) = Err err ->
  readLoop (ReadOk record :: rest) =
    logged (EvLogError ("Error parsing chunk " ++ err)) (readLoop rest) /\
  ilog (readLoop (ReadOk record :: rest)) =
    EvLogError ("Error parsing chunk " ++ err) :: ilog (readLoop rest) /\
  (forall records : list perfRecord,
     ilog (pollChunksPerfBuffer (map ReadOk records ++ ReadOk record :: rest)) =
       ilog (pollChunksPerfBuffer (map ReadOk records)) ++
       EvLogError ("Error parsing chunk " ++ err) :: ilog (readLoop rest)) /\
  sent (readLoop (ReadOk record :: rest)) = sent (readLoop rest) /\
  sent (pollChunksPerfBuffer (pre ++ ReadOk record :: rest)) =
    sent (pollChunksPerfBuffer (pre ++ rest)) /\
  chan_closed (pollChunksPerfBuffer (pre ++ ReadOk record :: rest)) =
    chan_closed (pollChunksPerfBuffer (pre ++ rest)) /\
  task_returned (pollChunksPerfBuffer (pre ++ ReadOk record :: rest)) =
    task_returned (pollChunksPerfBuffer (pre ++ rest)).
Proof.
  intros Hlost Herr.
  assert (Heq : readLoop (ReadOk record :: rest) =
                logged (EvLogError ("Error parsing chunk " ++ err)) (readLoop rest)).
  { cbn [readLoop]. now rewrite Hlost, Herr. }
  split; [exact Heq|].
  split; [rewrite Heq; reflexivity|].
  split.
  { intros records. unfold pollChunksPerfBuffer. cbn [logged ilog].
    rewrite readLoop_ilog_app, Heq. reflexivity. }
  split; [rewrite Heq; reflexivity|].
  unfold pollChunksPerfBuffer. cbn [logged sent chan_closed task_returned].
  assert (Hnone : pushed_chunk record = None).
  { unfold pushed_chunk. now rewrite Hlost, Herr. }
  assert (Hb : forall l, before_error (pre ++ ReadOk record :: l) =
                         before_error (pre ++ l) \/
                         exists a b, before_error (pre ++ ReadOk record :: l) = a ++ record :: b /\
                                     before_error (pre ++ l) = a ++ b).
  { intros l. induction pre as [|[r|e] pre IH].
    - right. exists [], (before_error l). split; reflexivity.
    - cbn [app before_error]. destruct IH as [IH|(a & b & Ha & Hb)].
      + left. now rewrite IH.
      + right. exists (r :: a), b. cbn. now rewrite Ha, Hb.
    - left. reflexivity. }
  assert (Hf : first_error (pre ++ ReadOk record :: rest) = first_error (pre ++ rest)).
  { clear Hb. induction pre as [|[r|e] pre IH]; [reflexivity|exact IH|reflexivity]. }
  destruct (readLoop_closed (pre ++ ReadOk record :: rest)) as [Hc1 Hr1].
  destruct (readLoop_closed (pre ++ rest)) as [Hc2 Hr2].
  rewrite Hr1, Hr2, Hc1, Hc2, Hf, !readLoop_sent.
  split; [|split; reflexivity].
  destruct (Hb rest) as [->|(a & b & -> & ->)]; [reflexivity|].
  rewrite !omap_app. cbn [omap list_omap]. now rewrite Hnone.
Qed.

(** ** The demultiplexer, as a whole *)

Section DemultiplexerFurther.

Variable IP_String : IP -> string.
Variable getAddressPair : tracerTlsChunk -> addressPair.
Variable isRequest : tracerTlsChunk -> bool.

Local Abbreviation handle := (handleTlsChunk IP_String getAddressPair isRequest).
Local Abbreviation run := (poll IP_String getAddressPair isRequest).
Local Abbreviation key_of := (flowKey IP_String getAddressPair isRequest).
Local Abbreviation fresh := (fresh_stream IP_String getAddressPair isRequest).
Local Abbreviation creation := (creation_events IP_String getAddressPair isRequest).
Local Abbreviation step_spec := (handleTlsChunk_spec IP_String getAddressPair isRequest).
Local Abbreviation step_new := (handleTlsChunk_new IP_String getAddressPair isRequest).
Local Abbreviation step_old := (handleTlsChunk_old IP_String getAddressPair isRequest).
Local Abbreviation run_chunk := (poll_chunk IP_String getAddressPair isRequest).

Lemma deliver_key side chunk st : st_key (deliver side chunk st) = st_key st.
Proof. unfold deliver. now destruct side. Qed.

(** One chunk: exactly one call of [newChunk], with the chunk, on the side
    of its direction. *)
Lemma handle_dispatch chunk w :
  wf w ->
  exists w' ev s,
    handle chunk w = Some (None, w') /\ wf w' /\ trace w' = trace w ++ ev /\
    dispatched ev = [(s, isRequest chunk, chunk)].
Proof.
  intros Hwf. destruct (step_spec chunk w Hwf) as (w' & ev & Hrun & Hwf' & Htr & _ & _ & Hcase).
  destruct (streams (poller w) !! key_of chunk) as [s|].
  - destruct Hcase as (_ & _ & ->). eexists w', _, s. eauto.
  - destruct Hcase as (_ & _ & ->). eexists w', _, (length (heap w)). eauto.
Qed.

(** One chunk keeps the registry keyed. *)
Lemma handle_keyed chunk w w' :
  wf w -> keyed w -> handle chunk w = Some (None, w') -> keyed w'.
Proof.
  intros Hwf Hkeyed Hrun.
  destruct (streams (poller w) !! key_of chunk) as [s|] eqn:Hk.
  - destruct (Hwf _ _ Hk) as (st & Hs & Hc & Hr & _).
    rewrite (step_old _ _ _ _ Hk Hs Hc Hr) in Hrun. injection Hrun as <-.
    intros k' s' Hk'. cbn [poller heap] in *.
    destruct (Hkeyed _ _ Hk') as (st' & Hs' & Hkey').
    destruct (decide (s' = s)) as [->|Hne].
    + exists (deliver (isRequest chunk) chunk st).
      rewrite list_lookup_insert_eq by (now apply lookup_lt_Some in Hs).
      split; [reflexivity|]. rewrite deliver_key. congruence.
    + exists st'. now rewrite list_lookup_insert_ne by congruence.
  - rewrite (step_new _ _ Hk) in Hrun. cbn zeta in Hrun. injection Hrun as <-.
    intros k' s' Hk'. cbn [poller heap streams] in *.
    rewrite lookup_insert in Hk'. case_decide as Hkk.
    + injection Hk' as <-. exists (fresh chunk w). rewrite lookup_snoc.
      split; [reflexivity|]. unfold fresh_stream. now rewrite deliver_key.
    + destruct (Hkeyed _ _ Hk') as (st' & Hs' & Hkey').
      exists st'. now rewrite lookup_app_l by (now apply lookup_lt_Some in Hs').
Qed.

Lemma keyed_without key w : keyed w -> keyed (without key w).
Proof.
  intros Hkeyed k s Hk. cbn in Hk. apply lookup_delete_Some in Hk as [_ Hk].
  exact (Hkeyed _ _ Hk).
Qed.

(** One chunk adds a heap cell and a table entry if it creates a stream,
    and removes or overwrites none. *)
Lemma handle_grows chunk w w' ev :
  wf w -> table_allocated w ->
  handle chunk w = Some (None, w') -> trace w' = trace w ++ ev ->
  table_allocated w' /\
  length (heap w') = (length (heap w) + count is_NewTlsStream ev)%nat /\
  size (table (streamsMap w')) = (size (table (streamsMap w)) + count is_NewTlsStream ev)%nat /\
  streamId (streamsMap w') = (streamId (streamsMap w) + Z.of_nat (count is_NewTlsStream ev))%Z /\
  table (streamsMap w) ⊆ table (streamsMap w').
Proof.
  intros Hwf Halloc Hrun Htr.
  destruct (streams (poller w) !! key_of chunk) as [s|] eqn:Hk.
  - destruct (Hwf _ _ Hk) as (st & Hs & Hc & Hr & _).
    rewrite (step_old _ _ _ _ Hk Hs Hc Hr) in Hrun. injection Hrun as <-.
    cbn [trace heap streamsMap] in *. apply app_inv_head in Htr as <-.
    rewrite length_insert. cbn. repeat split; try lia; first [exact Halloc | reflexivity].
  - rewrite (step_new _ _ Hk) in Hrun. cbn zeta in Hrun. injection Hrun as <-.
    cbn [trace heap streamsMap table streamId] in *. apply app_inv_head in Htr as <-.
    assert (Hfresh : table (streamsMap w) !! (streamId (streamsMap w) + 1)%Z = None).
    { destruct (table (streamsMap w) !! (streamId (streamsMap w) + 1)%Z) as [s|] eqn:Hs;
        [|reflexivity]. apply Halloc in Hs. lia. }
    rewrite length_app, (map_size_insert_None _ _ _ Hfresh).
    assert (Hone : count is_NewTlsStream (creation chunk w) = 1%nat) by reflexivity.
    rewrite Hone. cbn [length]. split; [|repeat split; try lia].
    + intros id s Hid. cbn [streamsMap table streamId] in *.
      rewrite lookup_insert in Hid. case_decide as Hi.
      * lia.
      * apply Halloc in Hid. lia.
    + now apply insert_subseteq.
Qed.

Lemma without_frame key w :
  heap (without key w) = heap w /\ streamsMap (without key w) = streamsMap w /\
  trace (without key w) = trace w.
Proof. repeat split. Qed.

(** X8. The loop composes: as long as the handoff queue is not closed,
    handling the messages [a] and then the messages [b] is handling [b]
    from the world [a] led to; every message is handled without a panic and
    the loop is still running after [a]. *)
Theorem poll_composes (a : list pollMsg) (w : world) :
  wf w -> MsgChunksClosed ∉ a ->
  exists w1,
    run a w = Some (false, w1) /\ wf w1 /\
    forall b, run (a ++ b) w = run b w1.
Proof.
  intros Hwf Hnot. revert w Hwf. induction a as [|m rest IH]; intros w Hwf.
  - exists w. repeat split; auto.
  - assert (Hnot' : MsgChunksClosed ∉ rest).
    { intros H. apply Hnot. now right. }
    destruct m as [chunk| |k'].
    + destruct (step_spec chunk w Hwf) as (w1 & ev & Hrun & Hwf1 & _).
      destruct (IH Hnot' w1 Hwf1) as (w' & Hpoll & Hwf' & Happ).
      exists w'. split; [now rewrite (run_chunk _ _ _ _ Hrun)|].
      split; [assumption|]. intros b.
      rewrite <- app_comm_cons, (run_chunk _ _ _ _ Hrun). apply Happ.
    + exfalso. apply Hnot. left.
    + destruct (IH Hnot' (without k' w)
                  (wf_without k' w Hwf))
        as (w' & Hpoll & Hwf' & Happ).
      exists w'. split; [exact Hpoll|]. split; [assumption|]. intros b. apply Happ.
Qed.

Lemma run_dispatch msgs :
  forall w, wf w ->
  exists b w' added,
    run msgs w = Some (b, w') /\ wf w' /\ trace w' = trace w ++ added /\
    (fun d => (d.1.2, d.2)) <$> dispatched added =
      (fun chunk => (isRequest chunk, chunk)) <$> handled msgs /\
    (b = true <-> MsgChunksClosed ∈ msgs).
Proof.
  induction msgs as [|m rest IH]; intros w Hwf.
  - exists false, w, []. rewrite app_nil_r. repeat split; auto.
    + discriminate.
    + intros H. now apply elem_of_nil in H.
  - destruct m as [chunk| |k'].
    + destruct (handle_dispatch chunk w Hwf) as (w1 & ev & s & Hrun & Hwf1 & Htr1 & Hd1).
      destruct (IH w1 Hwf1) as (b & w' & added & Hpoll & Hwf' & Htr & Hd & Hb).
      exists b, w', (ev ++ added). rewrite (run_chunk _ _ _ _ Hrun).
      split; [assumption|]. split; [assumption|].
      split; [now rewrite Htr, Htr1, app_assoc|]. split.
      * unfold dispatched in *. rewrite omap_app, fmap_app, Hd1, Hd. reflexivity.
      * rewrite Hb. split; intros H; [now right|].
        apply elem_of_cons in H as [H|H]; [discriminate|assumption].
    + exists true, w, []. rewrite app_nil_r. repeat split; auto. left.
    + destruct (IH (without k' w) (wf_without k' w Hwf))
        as (b & w' & added & Hpoll & Hwf' & Htr & Hd & Hb).
      exists b, w', added. repeat split; try assumption.
      * intros H. right. now apply Hb.
      * intros H. apply Hb. apply elem_of_cons in H as [H|H]; [discriminate|assumption].
Qed.

(** X9. Whatever the loop receives, every chunk received before the
    closure of the handoff queue is passed to [newChunk] exactly once, in
    arrival order and on the side of its direction, and nothing else is;
    the loop returns exactly when the closure is among the messages. *)
Theorem dispatch_in_arrival_order (msgs : list pollMsg) (w : world) :
  wf w ->
  exists b w' added,
    run msgs w = Some (b, w') /\ trace w' = trace w ++ added /\
    (fun d => (d.1.2, d.2)) <$> dispatched added =
      (fun chunk => (isRequest chunk, chunk)) <$> handled msgs /\
    (b = true <-> MsgChunksClosed ∈ msgs).
Proof.
  intros Hwf.
  destruct (run_dispatch msgs w Hwf) as (b & w' & added & Hpoll & _ & Htr & Hd & Hb).
  exists b, w', added. repeat split; try assumption; apply Hb.
Qed.

Lemma run_keyed msgs :
  forall w, wf w -> keyed w ->
  exists b w', run msgs w = Some (b, w') /\ wf w' /\ keyed w'.
Proof.
  induction msgs as [|m rest IH]; intros w Hwf Hkeyed.
  - exists false, w. auto.
  - destruct m as [chunk| |k'].
    + destruct (step_spec chunk w Hwf) as (w1 & ev & Hrun & Hwf1 & _).
      destruct (IH w1 Hwf1 (handle_keyed _ _ _ Hwf Hkeyed Hrun)) as (b & w' & Hpoll & Hw).
      exists b, w'. now rewrite (run_chunk _ _ _ _ Hrun).
    + exists true, w. auto.
    + destruct (IH (without k' w) (wf_without k' w Hwf)
                  (keyed_without k' w Hkeyed)) as (b & w' & Hpoll & Hw).
      exists b, w'. auto.
Qed.

(** X10. Starting from a registry in which every stream carries the key it
    is registered under (the empty registry, for one), the loop keeps it
    so: after any messages the stream registered under a key carries that
    key, and two different keys are never registered to one stream. *)
Theorem registry_stays_keyed (msgs : list pollMsg) (w : world) :
  wf w -> keyed w ->
  exists b w',
    run msgs w = Some (b, w') /\
    (forall k s, streams (poller w') !! k = Some s ->
       exists st, heap w' !! s = Some st /\ st_key st = k) /\
    (forall k1 k2 s, streams (poller w') !! k1 = Some s ->
       streams (poller w') !! k2 = Some s -> k1 = k2).
Proof.
  intros Hwf Hkeyed.
  destruct (run_keyed msgs w Hwf Hkeyed) as (b & w' & Hpoll & _ & Hk').
  exists b, w'. split; [assumption|]. split; [exact Hk'|].
  intros k1 k2 s H1 H2.
  destruct (Hk' _ _ H1) as (st1 & Hs1 & <-). destruct (Hk' _ _ H2) as (st2 & Hs2 & <-).
  congruence.
Qed.

(** X11. A teardown for a key that is not registered changes nothing, and
    a teardown repeated is a teardown done once: the loop goes on as if the
    extra notification had not come. *)
Theorem teardown_of_unregistered_key (k : string) (rest : list pollMsg) (w : world) :
  (streams (poller w) !! k = None -> run (MsgCloseStream k :: rest) w = run rest w) /\
  run (MsgCloseStream k :: MsgCloseStream k :: rest) w = run (MsgCloseStream k :: rest) w.
Proof.
  assert (Hid : forall w0, streams (poller w0) !! k = None -> without k w0 = w0).
  { intros [[st pf c ec] m h t] H. unfold without. cbn in *. now rewrite delete_id. }
  rewrite !(poll_close IP_String getAddressPair isRequest). split.
  - intros H. now rewrite Hid.
  - rewrite (Hid (without k w)); [reflexivity|]. cbn. apply lookup_delete_eq.
Qed.

Lemma run_grows msgs :
  forall w, wf w -> table_allocated w ->
  exists b w' added,
    run msgs w = Some (b, w') /\ trace w' = trace w ++ added /\
    table_allocated w' /\
    length (heap w') = (length (heap w) + count is_NewTlsStream added)%nat /\
    size (table (streamsMap w')) =
      (size (table (streamsMap w)) + count is_NewTlsStream added)%nat /\
    streamId (streamsMap w') =
      (streamId (streamsMap w) + Z.of_nat (count is_NewTlsStream added))%Z /\
    table (streamsMap w) ⊆ table (streamsMap w').
Proof.
  induction msgs as [|m rest IH]; intros w Hwf Halloc.
  - exists false, w, []. rewrite app_nil_r. cbn. repeat split; auto; lia.
  - destruct m as [chunk| |k'].
    + destruct (step_spec chunk w Hwf) as (w1 & ev & Hrun & Hwf1 & Htr1 & _).
      destruct (handle_grows chunk w w1 ev Hwf Halloc Hrun Htr1)
        as (Halloc1 & Hh1 & Ht1 & Hi1 & Hsub1).
      destruct (IH w1 Hwf1 Halloc1) as (b & w' & added & Hpoll & Htr & Ha & Hh & Ht & Hi & Hsub).
      exists b, w', (ev ++ added). rewrite (run_chunk _ _ _ _ Hrun), count_app.
      split; [assumption|]. split; [now rewrite Htr, Htr1, app_assoc|].
      split; [assumption|]. repeat split; try lia.
      now transitivity (table (streamsMap w1)).
    + exists true, w, []. rewrite app_nil_r. cbn. repeat split; auto; lia.
    + destruct (IH (without k' w) (wf_without k' w Hwf))
        as (b & w' & added & Hpoll & Hrest); [exact Halloc|].
      exists b, w', added. auto.
Qed.

(** X12. The loop allocates one stream and stores one entry in the shared
    table for every stream it creates, and never frees or removes one: over
    any run, teardowns included, the heap and the shared table grow by the
    number of streams created, the allocator's counter advances by that
    number, and every entry the table held is still there. *)
Theorem streams_are_never_released (msgs : list pollMsg) (w : world) :
  wf w -> table_allocated w ->
  exists b w' added,
    run msgs w = Some (b, w') /\ trace w' = trace w ++ added /\
    length (heap w') = (length (heap w) + count is_NewTlsStream added)%nat /\
    size (table (streamsMap w')) =
      (size (table (streamsMap w)) + count is_NewTlsStream added)%nat /\
    streamId (streamsMap w') =
      (streamId (streamsMap w) + Z.of_nat (count is_NewTlsStream added))%Z /\
    (forall id s, table (streamsMap w) !! id = Some s ->
                  table (streamsMap w') !! id = Some s).
Proof.
  intros Hwf Halloc.
  destruct (run_grows msgs w Hwf Halloc)
    as (b & w' & added & Hpoll & Htr & _ & Hh & Ht & Hi & Hsub).
  exists b, w', added. repeat split; try assumption.
  intros id s Hid. exact (lookup_weaken _ _ _ _ Hid Hsub).
Qed.

Lemma handled_from_handoff msgs : handled (List.filter from_handoff msgs) = handled msgs.
Proof.
  induction msgs as [|[chunk| |k'] rest IH]; cbn; [reflexivity| |reflexivity|assumption].
  now rewrite IH.
Qed.

Lemma handled_handoff (r : ingestion) : handled (handoff r) = sent r.
Proof.
  unfold handoff. induction (sent r) as [|chunk l IH]; cbn.
  - now destruct (chan_closed r).
  - now rewrite IH.
Qed.

Lemma closed_in_handoff (r : ingestion) :
  MsgChunksClosed ∈ handoff r <-> chan_closed r = true.
Proof.
  unfold handoff. rewrite elem_of_app. split.
  - intros [H|H].
    + apply list_elem_of_fmap in H as (c & Hc & _). discriminate.
    + destruct (chan_closed r); [reflexivity|]. now apply elem_of_nil in H.
  - intros ->. right. left.
Qed.

Lemma first_error_is_Some reads :
  is_Some (first_error reads) <-> exists err, ReadErr err ∈ reads.
Proof.
  induction reads as [|[record|err] rest IH].
  - split; [intros [e He]; discriminate | intros [e He]; now apply elem_of_nil in He].
  - cbn [first_error]. rewrite IH. split; intros [e He]; exists e.
    + now right.
    + apply elem_of_cons in He as [He|He]; [discriminate|assumption].
  - cbn [first_error]. split; [intros _; exists err; left | intros _; eauto].
Qed.

(** X13. The two tasks together: whatever the reader returns and however
    the select of [poll] interleaves the handoff queue with teardown keys,
    once [poll] has received what the ingestion task put on the queue the
    chunks passed to [newChunk] are, in order, exactly the decodings of the
    loss-free, well-formed records read before the first failed read; and
    [poll] has returned exactly if some read failed. *)
Theorem pipeline_delivers_good_records (reads : list readResult) (msgs : list pollMsg)
    (w : world) :
  wf w ->
  List.filter from_handoff msgs = handoff (pollChunksPerfBuffer reads) ->
  exists b w' added,
    run msgs w = Some (b, w') /\ trace w' = trace w ++ added /\
    (dispatched added).*2 = omap pushed_chunk (before_error reads) /\
    (b = true <-> exists err, ReadErr err ∈ reads).
Proof.
  intros Hwf Hq.
  destruct (run_dispatch msgs w Hwf) as (b & w' & added & Hpoll & _ & Htr & Hd & Hb).
  exists b, w', added. do 2 (split; [assumption|]). split.
  - apply (f_equal (fmap snd)) in Hd. rewrite <- !list_fmap_compose in Hd.
    etransitivity; [exact Hd|]. unfold compose. cbn [snd]. rewrite list_fmap_id.
    rewrite <- handled_from_handoff, Hq, handled_handoff.
    unfold pollChunksPerfBuffer. cbn [logged sent]. apply readLoop_sent.
  - rewrite Hb, <- first_error_is_Some.
    assert (Hin : MsgChunksClosed ∈ msgs <-> MsgChunksClosed ∈ List.filter from_handoff msgs).
    { rewrite !list_elem_of_In, List.filter_In. cbn. tauto. }
    rewrite Hin, Hq, closed_in_handoff.
    unfold pollChunksPerfBuffer. cbn [logged chan_closed].
    destruct (readLoop_closed reads) as [-> _]. apply bool_decide_eq_true.
Qed.

(** *** What the contexts of a flow receive *)

Local Abbreviation chunks_of_flow := (flow_chunks IP_String getAddressPair isRequest).
Local Abbreviation reqs := (requests isRequest).
Local Abbreviation resps := (responses isRequest).

Lemma deliver_received side chunk st :
  received <$> client (deliver side chunk st) =
    (fun l => if side then l ++ [chunk] else l) <$> (received <$> client st) /\
  received <$> server (deliver side chunk st) =
    (fun l => if side then l else l ++ [chunk]) <$> (received <$> server st).
Proof.
  unfold deliver. destruct side, (client st), (server st); split; reflexivity.
Qed.

(** One chunk, seen from the registered stream of the flow [k]. *)
Lemma handle_received k chunk w s st :
  wf w -> keyed w ->
  streams (poller w) !! k = Some s -> heap w !! s = Some st ->
  exists w',
    handle chunk w = Some (None, w') /\ wf w' /\ keyed w' /\
    streams (poller w') !! k = Some s /\
    heap w' !! s =
      Some (if decide (key_of chunk = k) then deliver (isRequest chunk) chunk st else st).
Proof.
  intros Hwf Hkeyed Hk Hs.
  destruct (step_spec chunk w Hwf) as (w' & ev & Hrun & Hwf' & _).
  exists w'. split; [assumption|]. split; [assumption|].
  split; [exact (handle_keyed _ _ _ Hwf Hkeyed Hrun)|].
  destruct (streams (poller w) !! key_of chunk) as [s'|] eqn:Hk'.
  - destruct (Hwf _ _ Hk') as (st' & Hs' & Hc & Hr & _).
    rewrite (step_old _ _ _ _ Hk' Hs' Hc Hr) in Hrun. injection Hrun as <-.
    cbn [poller heap]. split; [assumption|].
    destruct (decide (key_of chunk = k)) as [He|He].
    + rewrite He in Hk'. assert (s' = s) by congruence. subst s'.
      assert (st' = st) by congruence. subst st'.
      apply list_lookup_insert_eq. now apply lookup_lt_Some in Hs.
    + rewrite list_lookup_insert_ne; [assumption|]. intros ->.
      destruct (Hkeyed _ _ Hk) as (st1 & Hs1 & Hk1).
      destruct (Hkeyed _ _ Hk') as (st2 & Hs2 & Hk2). congruence.
  - rewrite (step_new _ _ Hk') in Hrun. cbn zeta in Hrun. injection Hrun as <-.
    cbn [poller heap streams].
    destruct (decide (key_of chunk = k)) as [He|He]; [congruence|].
    split; [now rewrite lookup_insert_ne|].
    now rewrite lookup_app_l by (now apply lookup_lt_Some in Hs).
Qed.

Lemma flow_chunks_cons k chunk rest :
  chunks_of_flow k (MsgChunk chunk :: rest) =
    if decide (key_of chunk = k) then chunk :: chunks_of_flow k rest
    else chunks_of_flow k rest.
Proof.
  unfold flow_chunks. cbn [handled List.filter].
  destruct (decide (key_of chunk = k)) as [He|He].
  - now rewrite bool_decide_eq_true_2.
  - now rewrite bool_decide_eq_false_2.
Qed.

(** A run, seen from the registered stream of the flow [k]. *)
Lemma run_received k msgs :
  forallb (keeps k) msgs = true ->
  forall w s st,
  wf w -> keyed w ->
  streams (poller w) !! k = Some s -> heap w !! s = Some st ->
  exists w' st',
    run msgs w = Some (false, w') /\ wf w' /\
    streams (poller w') !! k = Some s /\ heap w' !! s = Some st' /\
    received <$> client st' =
      (fun l => l ++ reqs (chunks_of_flow k msgs)) <$> (received <$> client st) /\
    received <$> server st' =
      (fun l => l ++ resps (chunks_of_flow k msgs)) <$> (received <$> server st).
Proof.
  induction msgs as [|m rest IH]; intros Hkeep w s st Hwf Hkeyed Hk Hs.
  - exists w, st. do 4 (split; [auto|]). cbn.
    destruct (client st), (server st); cbn; rewrite ?app_nil_r; auto.
  - cbn [forallb] in Hkeep. apply andb_true_iff in Hkeep as [Hm Hrest].
    destruct m as [chunk| |k'].
    + destruct (handle_received k chunk w s st Hwf Hkeyed Hk Hs)
        as (w1 & Hrun & Hwf1 & Hkeyed1 & Hk1 & Hs1).
      destruct (IH Hrest w1 s _ Hwf1 Hkeyed1 Hk1 Hs1)
        as (w' & st' & Hpoll & Hwf' & Hk' & Hs' & Hc & Hr).
      exists w', st'. rewrite (run_chunk _ _ _ _ Hrun).
      do 4 (split; [assumption|]). rewrite Hc, Hr, flow_chunks_cons.
      destruct (decide (key_of chunk = k)) as [He|He]; [|auto].
      destruct (deliver_received (isRequest chunk) chunk st) as [-> ->].
      unfold requests, responses. cbn [List.filter].
      destruct (isRequest chunk), (client st), (server st); cbn;
        rewrite <- ?app_assoc; auto.
    + discriminate Hm.
    + cbn [keeps] in Hm. apply negb_true_iff, bool_decide_eq_false in Hm.
      destruct (IH Hrest (without k' w) s st (wf_without k' w Hwf) (keyed_without k' w Hkeyed))
        as (w' & st' & Hpoll & Hrest'); [cbn; now rewrite lookup_delete_ne|assumption|].
      exists w', st'. exact (conj Hpoll Hrest').
Qed.

(** X14. Take a flow [k] that is not registered and any run of chunks of
    any flows and teardowns of other flows in which a chunk of [k] arrives.
    At the end the client context of the stream registered under [k] has
    received exactly the request-side chunks of [k], in arrival order, and
    the server context exactly its response-side chunks: chunks of other
    flows never reach them and none of the flow is lost or reordered. *)
Theorem flow_contexts_receive_in_order (k : string) (msgs : list pollMsg) (w : world) :
  wf w -> keyed w ->
  streams (poller w) !! k = None ->
  forallb (keeps k) msgs = true ->
  existsb (chunk_of IP_String getAddressPair isRequest k) msgs = true ->
  exists w' s st rc rs,
    run msgs w = Some (false, w') /\
    streams (poller w') !! k = Some s /\ heap w' !! s = Some st /\
    client st = Some rc /\ server st = Some rs /\
    received rc = reqs (chunks_of_flow k msgs) /\
    received rs = resps (chunks_of_flow k msgs).
Proof.
  intros Hwf Hkeyed Hk Hkeep Hex. revert w Hwf Hkeyed Hk.
  induction msgs as [|m rest IH]; intros w Hwf Hkeyed Hk; [discriminate|].
  cbn [forallb] in Hkeep. apply andb_true_iff in Hkeep as [Hm Hrest].
  destruct m as [chunk| |k'].
  - destruct (step_spec chunk w Hwf) as (w1 & ev & Hrun & Hwf1 & _).
    pose proof (handle_keyed _ _ _ Hwf Hkeyed Hrun) as Hkeyed1.
    rewrite (run_chunk _ _ _ _ Hrun), flow_chunks_cons.
    destruct (decide (key_of chunk = k)) as [He|He].
    + pose proof Hrun as Hrun'. rewrite <- He in Hk.
      rewrite (step_new _ _ Hk) in Hrun'. cbn zeta in Hrun'. injection Hrun' as Hw1.
      assert (Hk1 : streams (poller w1) !! k = Some (length (heap w))).
      { rewrite <- Hw1, <- He. cbn. apply lookup_insert_eq. }
      assert (Hs1 : heap w1 !! length (heap w) = Some (fresh chunk w)).
      { rewrite <- Hw1. cbn. apply lookup_snoc. }
      destruct (run_received k rest Hrest w1 _ _ Hwf1 Hkeyed1 Hk1 Hs1)
        as (w' & st' & Hpoll & Hwf' & Hk' & Hs' & Hc & Hr).
      destruct (Hwf' _ _ Hk') as (st2 & Hs2 & [rc Hrc] & [rs Hrs] & _).
      assert (st2 = st') by congruence. subst st2.
      exists w', (length (heap w)), st', rc, rs. do 5 (split; [assumption|]).
      rewrite Hrc, Hrs in *. unfold fresh_stream, deliver, requests, responses in *.
      cbn [List.filter].
      destruct (isRequest chunk); cbn in Hc, Hr; cbn; split; congruence.
    + cbn [existsb chunk_of] in Hex. rewrite (bool_decide_eq_false_2 _ He) in Hex.
      apply (IH Hrest Hex w1 Hwf1 Hkeyed1).
      destruct (handleTlsChunk_flow IP_String getAddressPair isRequest k chunk w Hwf)
        as (w2 & ev2 & Hrun2 & _ & _ & _ & _ & _ & Hreg & _).
      assert (w2 = w1) by congruence. subst w2. rewrite Hreg.
      destruct (decide (key_of chunk = k)); [contradiction|assumption].
  - discriminate Hm.
  - cbn [keeps] in Hm. apply negb_true_iff, bool_decide_eq_false in Hm.
    rewrite (poll_close IP_String getAddressPair isRequest).
    apply (IH Hrest Hex (without k' w) (wf_without k' w Hwf) (keyed_without k' w Hkeyed)).
    cbn. now rewrite lookup_delete_ne.
Qed.

(** *** Which flows are registered *)

(** X20. Whatever the loop receives, a flow is registered afterwards
    exactly if, among the messages handled before the closure, the last one
    that concerns it is a chunk of the flow rather than a teardown of its
    key (or none concerns it and it was registered before): the loop never
    registers a key no chunk mapped to and never keeps one after its
    teardown. *)
Theorem registry_domain (k : string) (msgs : list pollMsg) (w : world) :
  wf w ->
  exists b w',
    run msgs w = Some (b, w') /\
    (is_Some (streams (poller w') !! k) <->
     registered_after IP_String getAddressPair isRequest k msgs
       (bool_decide (is_Some (streams (poller w) !! k))) = true).
Proof.
  revert w. induction msgs as [|m rest IH]; intros w Hwf.
  - exists false, w. split; [reflexivity|]. cbn. now rewrite bool_decide_eq_true.
  - destruct m as [chunk| |k'].
    + destruct (handleTlsChunk_flow IP_String getAddressPair isRequest k chunk w Hwf)
        as (w1 & ev & Hrun & Hwf1 & _ & _ & _ & _ & Hreg & _).
      destruct (IH w1 Hwf1) as (b & w' & Hpoll & Hiff).
      exists b, w'. rewrite (run_chunk _ _ _ _ Hrun). split; [assumption|].
      rewrite Hiff. cbn [registered_after].
      replace (bool_decide (is_Some (streams (poller w1) !! k)))
        with (bool_decide (is_Some (streams (poller w) !! k)) || bool_decide (key_of chunk = k));
        [reflexivity|].
      rewrite Hreg. destruct (decide (key_of chunk = k)) as [He|He].
      * rewrite (bool_decide_eq_true_2 _ He), orb_true_r.
        symmetry. apply bool_decide_eq_true. destruct (streams (poller w) !! k); eauto.
      * now rewrite (bool_decide_eq_false_2 _ He), orb_false_r.
    + exists true, w. split; [reflexivity|]. cbn. now rewrite bool_decide_eq_true.
    + destruct (IH (without k' w) (wf_without k' w Hwf)) as (b & w' & Hpoll & Hiff).
      exists b, w'. rewrite (poll_close IP_String getAddressPair isRequest).
      split; [assumption|]. rewrite Hiff. cbn [registered_after].
      replace (bool_decide (is_Some (streams (poller (without k' w)) !! k)))
        with (bool_decide (is_Some (streams (poller w) !! k)) && negb (bool_decide (k' = k)));
        [reflexivity|].
      cbn [without poller streams]. destruct (decide (k' = k)) as [He|He].
      * rewrite (bool_decide_eq_true_2 _ He), andb_false_r. subst k'.
        rewrite lookup_delete_eq. symmetry. apply bool_decide_eq_false. now intros [x Hx].
      * rewrite (bool_decide_eq_false_2 _ He), andb_true_r.
        now rewrite lookup_delete_ne.
Qed.

(** *** The shared table and the streams created *)

Lemma handle_stored n chunk w w' :
  wf w -> stored_from n w -> handle chunk w = Some (None, w') -> stored_from n w'.
Proof.
  intros Hwf Hst Hrun.
  destruct (streams (poller w) !! key_of chunk) as [s|] eqn:Hk.
  - destruct (Hwf _ _ Hk) as (st & Hs & Hc & Hr & _).
    rewrite (step_old _ _ _ _ Hk Hs Hc Hr) in Hrun. injection Hrun as <-.
    intros s' st' Hn Hs'. cbn [heap streamsMap] in *.
    destruct (decide (s' = s)) as [->|Hne].
    + rewrite list_lookup_insert_eq in Hs' by (now apply lookup_lt_Some in Hs).
      injection Hs' as <-. rewrite deliver_id. now apply Hst.
    + rewrite list_lookup_insert_ne in Hs' by congruence. now apply Hst.
  - rewrite (step_new _ _ Hk) in Hrun. cbn zeta in Hrun. injection Hrun as <-.
    intros s' st' Hn Hs'. cbn [heap streamsMap table streamId] in *.
    destruct (decide (s' = length (heap w))) as [->|Hne].
    + rewrite lookup_snoc in Hs'. injection Hs' as <-.
      destruct (fresh_stream_ready IP_String getAddressPair isRequest chunk w) as (_ & _ & ->).
      rewrite lookup_insert_eq. split; [reflexivity|lia].
    + assert (Hlt : (s' < length (heap w))%nat).
      { apply lookup_lt_Some in Hs'. rewrite length_app in Hs'. cbn in Hs'. lia. }
      rewrite lookup_app_l in Hs' by assumption.
      destruct (Hst _ _ Hn Hs') as [Ht Hle].
      rewrite lookup_insert_ne by lia. split; [assumption|lia].
Qed.

Lemma run_stored n msgs :
  forall w, wf w -> stored_from n w ->
  exists b w', run msgs w = Some (b, w') /\ wf w' /\ stored_from n w'.
Proof.
  induction msgs as [|m rest IH]; intros w Hwf Hst.
  - exists false, w. auto.
  - destruct m as [chunk| |k'].
    + destruct (step_spec chunk w Hwf) as (w1 & ev & Hrun & Hwf1 & _).
      destruct (IH w1 Hwf1 (handle_stored n _ _ _ Hwf Hst Hrun)) as (b & w' & Hpoll & Hw).
      exists b, w'. now rewrite (run_chunk _ _ _ _ Hrun).
    + exists true, w. auto.
    + destruct (IH (without k' w) (wf_without k' w Hwf)) as (b & w' & Hpoll & Hw);
        [exact Hst|]. exists b, w'. auto.
Qed.

(** X18. Every stream the loop creates is in the shared table under its own
    identity when the loop has handled its messages, whether or not the
    flow was torn down meanwhile, and any two streams created in the run
    have different identities. *)
Theorem created_streams_are_stored (msgs : list pollMsg) (w : world) :
  wf w ->
  exists b w',
    run msgs w = Some (b, w') /\
    (forall s st, (length (heap w) <= s)%nat -> heap w' !! s = Some st ->
       table (streamsMap w') !! st_id st = Some s) /\
    (forall s1 s2 st1 st2,
       (length (heap w) <= s1)%nat -> (length (heap w) <= s2)%nat ->
       heap w' !! s1 = Some st1 -> heap w' !! s2 = Some st2 ->
       st_id st1 = st_id st2 -> s1 = s2).
Proof.
  intros Hwf.
  assert (Hst : stored_from (length (heap w)) w).
  { intros s st Hn Hs. apply lookup_lt_Some in Hs. lia. }
  destruct (run_stored _ msgs w Hwf Hst) as (b & w' & Hpoll & _ & Hst').
  exists b, w'. split; [assumption|]. split.
  - intros s st Hn Hs. now apply Hst'.
  - intros s1 s2 st1 st2 H1 H2 Hs1 Hs2 Hid.
    destruct (Hst' _ _ H1 Hs1) as [Ht1 _]. destruct (Hst' _ _ H2 Hs2) as [Ht2 _].
    congruence.
Qed.

(** The identities that the chunk creating the stream of its flow binds
    to the two contexts. *)
Lemma handle_binds chunk w :
  streams (poller w) !! key_of chunk = None ->
  exists w',
    handle chunk w = Some (None, w') /\
    bound_identities (key_of chunk) w' =
      Some (buildTcpId IP_String (getAddressPair chunk) true,
            buildTcpId IP_String (getAddressPair chunk) false).
Proof.
  intros Hk. eexists. split; [exact (step_new _ _ Hk)|].
  cbn zeta. unfold bound_identities. cbn [poller streams heap].
  rewrite lookup_insert_eq, lookup_snoc. unfold fresh_stream, deliver.
  destruct (isRequest chunk); reflexivity.
Qed.

(** X21. The identities of a flow follow its first chunk. Take a request
    chunk and a response chunk that map to the same FlowKey, not yet
    registered. If the request chunk creates the stream, the client context
    gets the request-oriented identity of the request's address pair and
    the server context the swapped one; if the response chunk creates it,
    the two are exchanged: the client context gets what the server context
    would have had. It holds when the first address printed in the key
    contains no [>], as for every IPv4 or IPv6 address. *)
Theorem identities_follow_first_chunk (request response : tracerTlsChunk) (w : world) :
  isRequest request = true -> isRequest response = false ->
  key_of request = key_of response ->
  has_char gt_char (IP_String (srcIp (getAddressPair request))) = false ->
  has_char gt_char (IP_String (dstIp (getAddressPair response))) = false ->
  streams (poller w) !! key_of request = None ->
  exists w1 w2 idc ids,
    handle request w = Some (None, w1) /\
    handle response w = Some (None, w2) /\
    idc = buildTcpId IP_String (getAddressPair request) true /\
    ids = buildTcpId IP_String (getAddressPair request) false /\
    bound_identities (key_of request) w1 = Some (idc, ids) /\
    bound_identities (key_of request) w2 = Some (ids, idc).
Proof.
  intros Hreq Hresp Hkey Hgt1 Hgt2 Hnone.
  destruct (handle_binds request w Hnone) as (w1 & Hrun1 & Hb1).
  assert (Hnone2 : streams (poller w) !! key_of response = None) by now rewrite <- Hkey.
  destruct (handle_binds response w Hnone2) as (w2 & Hrun2 & Hb2).
  exists w1, w2. eexists _, _. do 4 (split; [first [eassumption|reflexivity]|]).
  split; [exact Hb1|]. rewrite Hkey, Hb2.
  unfold flowKey, buildTlsKey in Hkey. rewrite Hreq, Hresp in Hkey.
  destruct (sprintf_key_inj IP_String _ _ _ _ _ _ _ _ Hgt1 Hgt2 Hkey) as (H1 & H2 & H3 & H4).
  unfold buildTcpId. now rewrite H1, H2, H3, H4.
Qed.

End DemultiplexerFurther.

(** ** Closing the generated objects *)

Section ClosersProperties.

Variable Handle : Type.
Variable Kernel : Type.
Variable closeHandle : Handle -> Kernel -> option string * Kernel.

Lemma TracerClose_app {C : Type} (close : C -> Kernel -> option string * Kernel)
    (a b : list C) (st : Kernel) :
  _TracerClose Kernel close (a ++ b) st =
    match _TracerClose Kernel close a st with
    | (None, st1) => _TracerClose Kernel close b st1
    | (Some err, st1) => (Some err, st1)
    end.
Proof.
  revert st. induction a as [|c a IH]; intros st; [reflexivity|].
  cbn [app _TracerClose]. destruct (close c st) as [[err|] st1]; [reflexivity|apply IH].
Qed.

(** X16. [_TracerClose] returns an error exactly when some closer fails
    after all the closers before it were closed without error: the error is
    that of this first failing closer, the state is the one its [Close]
    left, and no closer after it is closed, whatever it is. *)
Theorem TracerClose_stops_at_first_error {C : Type}
    (close : C -> Kernel -> option string * Kernel)
    (closers : list C) (st st' : Kernel) (err : string) :
  _TracerClose Kernel close closers st = (Some err, st') <->
  exists a c b st1,
    closers = a ++ c :: b /\
    _TracerClose Kernel close a st = (None, st1) /\
    close c st1 = (Some err, st').
Proof.
  split.
  - revert st. induction closers as [|c rest IH]; intros st Hrun; [discriminate|].
    cbn [_TracerClose] in Hrun. destruct (close c st) as [[e|] st1] eqn:Hc.
    + injection Hrun as -> ->. exists [], c, rest, st. auto.
    + destruct (IH st1 Hrun) as (a & c' & b & st2 & -> & Ha & Hc').
      exists (c :: a), c', b, st2. split; [reflexivity|]. split; [|assumption].
      cbn [_TracerClose]. now rewrite Hc.
  - intros (a & c & b & st1 & -> & Ha & Hc).
    rewrite TracerClose_app, Ha. cbn [_TracerClose]. now rewrite Hc.
Qed.

(** X17. Closing the objects closes the 27 programs in the order of their
    declaration and then the 18 maps in theirs, as one pass of
    [_TracerClose] over the 45 handles: it stops at the first handle whose
    [Close] fails, so an error on a program leaves every map open, and the
    maps are closed only from the state the programs were all closed in. *)
Theorem tracerObjects_Close_order (o : tracerObjects Handle) (st : Kernel) :
  tracerObjects_Close Handle Kernel closeHandle o st =
    _TracerClose Kernel closeHandle
      (program_closers Handle (objPrograms Handle o) ++ map_closers Handle (objMaps Handle o)) st /\
  length (program_closers Handle (objPrograms Handle o)) = 27%nat /\
  length (map_closers Handle (objMaps Handle o)) = 18%nat /\
  (forall err st',
     tracerPrograms_Close Handle Kernel closeHandle (objPrograms Handle o) st = (Some err, st') ->
     tracerObjects_Close Handle Kernel closeHandle o st = (Some err, st')) /\
  (forall st1,
     tracerPrograms_Close Handle Kernel closeHandle (objPrograms Handle o) st = (None, st1) ->
     tracerObjects_Close Handle Kernel closeHandle o st =
       tracerMaps_Close Handle Kernel closeHandle (objMaps Handle o) st1).
Proof.
  assert (Hobj : tracerObjects_Close Handle Kernel closeHandle o st =
            match tracerPrograms_Close Handle Kernel closeHandle (objPrograms Handle o) st with
            | (None, st1) => tracerMaps_Close Handle Kernel closeHandle (objMaps Handle o) st1
            | (Some err, st1) => (Some err, st1)
            end).
  { unfold tracerObjects_Close. cbn [_TracerClose close_part].
    destruct (tracerPrograms_Close Handle Kernel closeHandle (objPrograms Handle o) st)
      as [[err|] st1]; [reflexivity|].
    now destruct (tracerMaps_Close Handle Kernel closeHandle (objMaps Handle o) st1)
      as [[err|] st2]. }
  split; [|split; [reflexivity|split; [reflexivity|split]]].
  - rewrite Hobj, TracerClose_app. reflexivity.
  - intros err st' Hp. now rewrite Hobj, Hp.
  - intros st1 Hp. now rewrite Hobj, Hp.
Qed.

End ClosersProperties.

(** ** Concrete runs of the further properties *)

Lemma keyed_initial p m : streams p = ∅ -> keyed (initial_world p m).
Proof. intros Hp k s Hk. cbn in Hk. rewrite Hp in Hk. discriminate. Qed.

Lemma keyed_world0 : keyed world0.
Proof. now apply keyed_initial. Qed.

Lemma table_allocated_world0 : table_allocated world0.
Proof. intros id s H. discriminate. Qed.

Lemma chunk_ok_decodedA : chunk_ok decodedA.
Proof.
  unfold chunk_ok. repeat split; vm_compute; discriminate.
Qed.

Lemma decode_loses_nothing_witness : wire decodedA = take 4136 rawA.
Proof. apply (decode_loses_nothing rawA decodedA decode_rawA). Defined.

Lemma decode_wire_witness : binary_Read (wire decodedA ++ [x01; x02]) = Ok decodedA.
Proof. apply (decode_wire decodedA [x01; x02] chunk_ok_decodedA). Defined.

Lemma undecodable_record_is_skipped_witness :
  ilog (pollChunksPerfBuffer (map ReadOk [recordA] ++ ReadOk recordShort :: [ReadOk recordA])) =
    [EvLogInfo "Start polling for tls events";
     EvLogError "Error parsing chunk unexpected EOF"] /\
  sent (pollChunksPerfBuffer ([ReadOk recordA] ++ ReadOk recordShort :: [ReadOk recordA])) =
    sent (pollChunksPerfBuffer ([ReadOk recordA] ++ [ReadOk recordA])).
Proof.
  destruct (undecodable_record_is_skipped [ReadOk recordA] [ReadOk recordA] recordShort
              "unexpected EOF" eq_refl decode_short)
    as (_ & _ & Hlog & _ & Hs & _).
  split; [|assumption]. rewrite (Hlog [recordA]). vm_compute. reflexivity.
Defined.

Lemma poll_composes_witness :
  exists w1,
    poll ipv4_String sample_getAddressPair sample_isRequest
         [MsgChunk chunkA; MsgCloseStream keyA] world0 = Some (false, w1) /\
    forall b,
      poll ipv4_String sample_getAddressPair sample_isRequest
           ([MsgChunk chunkA; MsgCloseStream keyA] ++ b) world0 =
      poll ipv4_String sample_getAddressPair sample_isRequest b w1.
Proof.
  destruct (poll_composes ipv4_String sample_getAddressPair sample_isRequest
              [MsgChunk chunkA; MsgCloseStream keyA] world0 wf_world0)
    as (w1 & Hrun & _ & Happ).
  - intros H. apply elem_of_cons in H as [H|H]; [discriminate|].
    apply elem_of_cons in H as [H|H]; [discriminate|]. now apply elem_of_nil in H.
  - exists w1. auto.
Defined.

Lemma dispatch_in_arrival_order_witness :
  exists b w' added,
    poll ipv4_String sample_getAddressPair sample_isRequest msgsA world0 = Some (b, w') /\
    trace w' = trace world0 ++ added /\
    (fun d => (d.1.2, d.2)) <$> dispatched added =
      [(true, chunkA); (false, chunkB); (true, chunkA); (false, chunkB); (true, chunkA)].
Proof.
  destruct (dispatch_in_arrival_order ipv4_String sample_getAddressPair sample_isRequest
              msgsA world0 wf_world0) as (b & w' & added & Hrun & Htr & Hd & _).
  exists b, w', added. auto.
Defined.

Lemma registry_stays_keyed_witness :
  exists b w',
    poll ipv4_String sample_getAddressPair sample_isRequest msgsA world0 = Some (b, w') /\
    forall k1 k2 s, streams (poller w') !! k1 = Some s ->
                    streams (poller w') !! k2 = Some s -> k1 = k2.
Proof.
  destruct (registry_stays_keyed ipv4_String sample_getAddressPair sample_isRequest
              msgsA world0 wf_world0 keyed_world0) as (b & w' & Hrun & _ & Hinj).
  exists b, w'. auto.
Defined.

Lemma streams_are_never_released_witness :
  exists b w' added,
    poll ipv4_String sample_getAddressPair sample_isRequest msgsA world0 = Some (b, w') /\
    trace w' = trace world0 ++ added /\
    length (heap w') = (length (heap world0) + count is_NewTlsStream added)%nat /\
    size (table (streamsMap w')) =
      (size (table (streamsMap world0)) + count is_NewTlsStream added)%nat.
Proof.
  destruct (streams_are_never_released ipv4_String sample_getAddressPair sample_isRequest
              msgsA world0 wf_world0 table_allocated_world0)
    as (b & w' & added & Hrun & Htr & Hh & Ht & _).
  exists b, w', added. auto.
Defined.

Lemma pipeline_delivers_good_records_witness :
  exists b w' added,
    poll ipv4_String sample_getAddressPair sample_isRequest msgsHandoff world0 = Some (b, w') /\
    trace w' = trace world0 ++ added /\
    (dispatched added).*2 = omap pushed_chunk (before_error readsA).
Proof.
  destruct (pipeline_delivers_good_records ipv4_String sample_getAddressPair sample_isRequest
              readsA msgsHandoff world0 wf_world0) as (b & w' & added & Hrun & Htr & Hd & _).
  - vm_compute. reflexivity.
  - exists b, w', added. auto.
Defined.

Lemma flow_contexts_receive_in_order_witness :
  exists w' s st rc rs,
    poll ipv4_String sample_getAddressPair sample_isRequest msgsA world0 = Some (false, w') /\
    streams (poller w') !! keyA = Some s /\ heap w' !! s = Some st /\
    client st = Some rc /\ server st = Some rs /\
    received rc = [chunkA; chunkA; chunkA] /\ received rs = [].
Proof.
  destruct (flow_contexts_receive_in_order ipv4_String sample_getAddressPair sample_isRequest
              keyA msgsA world0 wf_world0 keyed_world0 (lookup_empty _)
              eq_refl eq_refl)
    as (w' & s & st & rc & rs & Hrun & Hk & Hs & Hc & Hr & Hrc & Hrs).
  exists w', s, st, rc, rs. auto 10.
Defined.

Lemma flow_key_tells_the_flow_witness :
  srcPort (oriented pairA true) = srcPort (oriented (reverse pairA) false) /\
  buildTcpId ipv4_String (oriented pairA true) false =
    buildTcpId ipv4_String (oriented (reverse pairA) false) false.
Proof.
  destruct (flow_key_tells_the_flow ipv4_String pairA (reverse pairA) true false
              eq_refl eq_refl eq_refl) as (_ & Hp & _ & _ & Hid).
  split; [exact Hp | exact (Hid false)].
Defined.

Lemma created_streams_are_stored_witness :
  exists b w',
    poll ipv4_String sample_getAddressPair sample_isRequest msgsA world0 = Some (b, w') /\
    forall s st, (length (heap world0) <= s)%nat -> heap w' !! s = Some st ->
                 table (streamsMap w') !! st_id st = Some s.
Proof.
  destruct (created_streams_are_stored ipv4_String sample_getAddressPair sample_isRequest
              msgsA world0 wf_world0) as (b & w' & Hrun & Hst & _).
  exists b, w'. auto.
Defined.

Lemma evictions_from_new_poller_witness :
  exists p w',
    newTlsPoller "/proc" = Ok p /\
    evict_each three_entries (initial_world p {| table := ∅; streamId := 0 |}) = Some (tt, w') /\
    evictedCounter (poller w') = 3%Z.
Proof.
  destruct (evictions_from_new_poller "/proc" {| table := ∅; streamId := 0 |} three_entries)
    as (p & w' & Hp & Hrun & Hc & _).
  - vm_compute. discriminate.
  - exists p, w'. auto.
Defined.

Lemma identities_follow_first_chunk_witness :
  exists w1 w2,
    handleTlsChunk ipv4_String sample_getAddressPair sample_isRequest chunkA world0 =
      Some (None, w1) /\
    handleTlsChunk ipv4_String sample_getAddressPair sample_isRequest chunkR world0 =
      Some (None, w2) /\
    bound_identities keyA w1 = Some (idAB, idBA) /\
    bound_identities keyA w2 = Some (idBA, idAB).
Proof.
  destruct (identities_follow_first_chunk ipv4_String sample_getAddressPair sample_isRequest
              chunkA chunkR world0 eq_refl eq_refl eq_refl eq_refl eq_refl (lookup_empty _))
    as (w1 & w2 & idc & ids & Hrun1 & Hrun2 & -> & -> & Hb1 & Hb2).
  exists w1, w2. auto.
Defined.

Lemma registry_domain_witness :
  exists b w',
    poll ipv4_String sample_getAddressPair sample_isRequest
         [MsgChunk chunkA; MsgChunk chunkB; MsgCloseStream keyB] world0 = Some (b, w') /\
    is_Some (streams (poller w') !! keyA) /\ ~ is_Some (streams (poller w') !! keyB).
Proof.
  destruct (registry_domain ipv4_String sample_getAddressPair sample_isRequest keyA
              [MsgChunk chunkA; MsgChunk chunkB; MsgCloseStream keyB] world0 wf_world0)
    as (b & w' & Hrun & HA).
  destruct (registry_domain ipv4_String sample_getAddressPair sample_isRequest keyB
              [MsgChunk chunkA; MsgChunk chunkB; MsgCloseStream keyB] world0 wf_world0)
    as (b' & w'' & Hrun' & HB).
  assert (w'' = w') by congruence. subst w''.
  exists b, w'. split; [assumption|]. split.
  - apply HA. reflexivity.
  - intros H. apply HB in H. discriminate.
Defined.
